(** * statistical_methods: the t-tests and F-tests of [main.py]

    [main.py] groups five hypothesis tests in two classes of static methods,
    [TTests] and [FTests].  Four of them hand their arguments to
    [scipy.stats] and return the statistic and the p-value they get back;
    the fifth, [FTests.two_sample_variance_f_test], computes the ratio of two
    sample variances with [numpy] and reads the p-value off the F
    distribution.

    The functions are embedded over a type class of scalars and read at
    [binary64], the IEEE 754 double precision numbers the program computes
    with ([np.float64], here Rocq's primitive floats).  Every theorem is
    about this arithmetic: rounding, infinities and NaN included. *)

From Stdlib Require Import ZArith List Bool Lia Permutation.
From Stdlib Require Import Floats.
Import ListNotations.

(** ** Outcomes of a Python call

    A call either returns a value or raises an exception. *)

Inductive exn : Type :=
  | ValueError
  | ZeroDivisionError
  | TypeError.

Inductive outcome (A : Type) : Type :=
  | Returns (a : A)
  | Raises (e : exn).

Arguments Returns {A} a.
Arguments Raises {A} e.

Definition bind {A B : Type} (m : outcome A) (k : A -> outcome B) : outcome B :=
  match m with
  | Returns a => k a
  | Raises e => Raises e
  end.

Notation "' p <- m ;; k" := (bind m (fun p => k))
  (at level 61, p pattern, m at next level, right associativity).

(** ** Scalars

    The arithmetic the program uses: the constants [0] and [1], the four
    operations, and the conversion of an element count to a scalar (numpy
    divides a float sum by an integer count with [true_divide]). *)

Class Scalar (T : Type) : Type := {
  zero : T;
  one : T;
  add : T -> T -> T;
  sub : T -> T -> T;
  mul : T -> T -> T;
  div : T -> T -> T;
  of_count : Z -> T
}.

(** [np.float64]: every operation is the IEEE 754 one, so dividing by zero
    yields an infinity or a NaN and raises nothing. *)
#[global]
Instance binary64 : Scalar float := {
  zero := PrimFloat.zero;
  one := PrimFloat.one;
  add := PrimFloat.add;
  sub := PrimFloat.sub;
  mul := PrimFloat.mul;
  div := PrimFloat.div;
  of_count := fun n => PrimFloat.of_uint63 (Uint63.of_Z n)
}.

(** ** numpy

    [np.var(a, ddof)] on a one-dimensional array, after [numpy]'s [_var]:
    the mean is the sum divided by the count, the deviations are squared
    elementwise, and their sum is divided by [max(count - ddof, 0)].  Both
    sums are [np.add.reduce], which adds a contiguous array by pairwise
    summation: fewer than 8 elements are added from left to right, up to
    [PW_BLOCKSIZE] elements are added into 8 accumulators, and a longer
    array is split in two halves. *)

Section NumPy.
Context {T : Type} `{Scalar T}.

(** [for (i = 0; i < n; i++) res += a[i]] *)
Definition sequential_sum (res : T) (a : list T) : T :=
  fold_left add a res.

(** The unrolled loop over blocks of 8, the combination of the 8
    accumulators, and the loop over what is left. *)
Fixpoint unrolled_sum (r0 r1 r2 r3 r4 r5 r6 r7 : T) (a : list T) : T :=
  match a with
  | b0 :: b1 :: b2 :: b3 :: b4 :: b5 :: b6 :: b7 :: rest =>
      unrolled_sum (add r0 b0) (add r1 b1) (add r2 b2) (add r3 b3)
                   (add r4 b4) (add r5 b5) (add r6 b6) (add r7 b7) rest
  | _ =>
      sequential_sum
        (add (add (add r0 r1) (add r2 r3)) (add (add r4 r5) (add r6 r7))) a
  end.

Definition PW_BLOCKSIZE : nat := 128.

(** [fuel] bounds the depth of the recursion on halves; the length of the
    array is always enough ([pairwise_sum_fuel]). *)
Fixpoint pairwise_sum (fuel : nat) (a : list T) : T :=
  let n := length a in
  if n <? 8 then sequential_sum zero a
  else if n <=? PW_BLOCKSIZE then
    match a with
    | a0 :: a1 :: a2 :: a3 :: a4 :: a5 :: a6 :: a7 :: rest =>
        unrolled_sum a0 a1 a2 a3 a4 a5 a6 a7 rest
    | _ => sequential_sum zero a
    end
  else
    match fuel with
    | O => sequential_sum zero a
    | S fuel' =>
        let n2 := n / 2 in
        let n2 := n2 - n2 mod 8 in
        add (pairwise_sum fuel' (firstn n2 a)) (pairwise_sum fuel' (skipn n2 a))
    end.

(** [np.add.reduce(a)]: the identity of [add], plus the pairwise sum. *)
Definition add_reduce (a : list T) : T :=
  add zero (pairwise_sum (length a) a).

Definition np_var (a : list T) (ddof : Z) : T :=
  let rcount := Z.of_nat (length a) in
  let arrmean := div (add_reduce a) (of_count rcount) in
  let x := map (fun v => sub v arrmean) a in
  let x := map (fun v => mul v v) x in
  let ret := add_reduce x in
  let rcount := Z.max (rcount - ddof) 0 in
  div ret (of_count rcount).
End NumPy.

(** ** scipy.stats

    The entry points of [scipy.stats] that [main.py] calls.  Their code is
    not part of the repository: the tests are parameters of the embedding.
    A test returns its statistic and p-value, or raises; [stats.f.cdf]
    returns a scalar. *)

Record scipy_stats (T : Type) : Type := {
  ttest_1samp : list T -> T -> outcome (T * T);
  ttest_rel : list T -> list T -> outcome (T * T);
  ttest_ind : list T -> list T -> outcome (T * T);
  f_oneway : list (list T) -> outcome (T * T);
  f_cdf : T -> Z -> Z -> T
}.

Arguments ttest_1samp {T} _ _ _.
Arguments ttest_rel {T} _ _ _.
Arguments ttest_ind {T} _ _ _.
Arguments f_oneway {T} _ _.
Arguments f_cdf {T} _ _ _ _.

(** ** main.py *)

Section Main.
Context {T : Type} `{Scalar T}.
Variable stats : scipy_stats T.

(** [len(sample)] *)
Definition len (sample : list T) : Z := Z.of_nat (length sample).

(** *** class TTests *)

Definition one_sample_t_test (sample : list T) (population_mean : T)
  : outcome (T * T) :=
  '(t_statistic, p_value) <- ttest_1samp stats sample population_mean ;;
  Returns (t_statistic, p_value).

Definition paired_sample_t_test (sample1 sample2 : list T) : outcome (T * T) :=
  '(t_statistic, p_value) <- ttest_rel stats sample1 sample2 ;;
  Returns (t_statistic, p_value).

Definition independent_two_sample_t_test (sample1 sample2 : list T)
  : outcome (T * T) :=
  '(t_statistic, p_value) <- ttest_ind stats sample1 sample2 ;;
  Returns (t_statistic, p_value).

(** *** class FTests *)

Definition one_way_anova_f_test (groups : list (list T)) : outcome (T * T) :=
  '(f_statistic, p_value) <- f_oneway stats groups ;;
  Returns (f_statistic, p_value).

Definition two_sample_variance_f_test (sample1 sample2 : list T)
  : outcome (T * T) :=
  let f_statistic := div (np_var sample1 1) (np_var sample2 1) in
  let '(dfn, dfd) := (len sample1 - 1, len sample2 - 1)%Z in
  let p_value := sub one (f_cdf stats f_statistic dfn dfd) in
  Returns (f_statistic, p_value).
End Main.

(** ** Samples of integers

    [integer k] is the binary64 number [np.float64(k)].  On a sample of
    integers [ks] the sums are taken exactly: the sum of the sample, the
    sum of the absolute values, and, for a mean [mu], the sum of the
    squared deviations from the mean, which the unbiased sample variance
    divides by [n - 1].  A sample of integers with an integer mean is an
    [integer_sample] when binary64 holds these sums without rounding. *)

Definition integer (k : Z) : float :=
  SF2Prim (binary_normalize prec emax k 0 false).

Definition exact_sum (ks : list Z) : Z := fold_right Z.add 0%Z ks.

Definition abs_sum (ks : list Z) : Z := exact_sum (map Z.abs ks).

Definition squared_deviations (mu : Z) (ks : list Z) : Z :=
  exact_sum (map (fun k => (k - mu) * (k - mu))%Z ks).

Definition integer_sample (ks : list Z) (mu : Z) : bool :=
  ((exact_sum ks =? Z.of_nat (length ks) * mu)
   && (Z.of_nat (length ks) <? 2 ^ 53)
   && (2 * abs_sum ks <? 2 ^ 53)
   && (squared_deviations mu ks <? 2 ^ 53))%Z.

(** A sample of binary64 numbers that is such a sample of integers. *)
Definition sample_of_integers (sample : list float) : Prop :=
  exists (ks : list Z) (mu : Z),
    sample = map integer ks /\ integer_sample ks mu = true.

(** ** Stand-ins for scipy.stats

    To run the embedding on concrete samples the record of [scipy.stats] is
    filled with stand-ins: tests that reject every input, and for
    [stats.f.cdf] the distribution function of the uniform distribution on
    [[0, 1]], which like every [scipy] distribution function maps NaN to
    NaN. *)

Definition uniform_cdf (x : float) (dfn dfd : Z) : float :=
  if is_nan x then nan
  else if (x <=? 0)%float then 0%float
  else if (1 <=? x)%float then 1%float
  else x.

Definition stand_in {T : Type} (cdf : T -> Z -> Z -> T) : scipy_stats T :=
  {| ttest_1samp := fun _ _ => Raises ValueError;
     ttest_rel := fun _ _ => Raises ValueError;
     ttest_ind := fun _ _ => Raises ValueError;
     f_oneway := fun _ => Raises ValueError;
     f_cdf := cdf |}.

(** ** Numbers between 0 and 1

    The binary64 number 1 in the format of the specification of the
    primitive floats, the specification-level numbers between 0 and 1, and
    the test a p-value is put to: NaN, or between 0 and 1. *)

Definition sf_one : spec_float := S754_finite false 4503599627370496 (-52).

Definition in_unit (r : spec_float) : Prop :=
  SFleb (S754_zero false) r = true /\ SFleb r sf_one = true.

Definition unit_or_nan (p : float) : bool :=
  is_nan p || ((0 <=? p) && (p <=? 1))%float.

(** What the program takes from [scipy.stats] for granted: every value of
    [stats.f.cdf] and every p-value a test returns is NaN or lies between 0
    and 1. *)
Definition p_values_of_scipy (stats : scipy_stats float) : Prop :=
  (forall x dfn dfd, unit_or_nan (f_cdf stats x dfn dfd) = true)
  /\ (forall sample mu t p,
        ttest_1samp stats sample mu = Returns (t, p) -> unit_or_nan p = true)
  /\ (forall sample1 sample2 t p,
        ttest_rel stats sample1 sample2 = Returns (t, p) -> unit_or_nan p = true)
  /\ (forall sample1 sample2 t p,
        ttest_ind stats sample1 sample2 = Returns (t, p) -> unit_or_nan p = true)
  /\ (forall groups f p,
        f_oneway stats groups = Returns (f, p) -> unit_or_nan p = true).

(** ** Signs and non-finite numbers

    A number has a clear sign when its sign bit is not set or it is a NaN;
    such a number is a NaN or at least 0.  A set of numbers is absorbing
    when a sum with one of its members stays in it: NaN alone is, and so is
    NaN together with the infinity of one sign. *)

Definition sf_sign_clear (x : spec_float) : bool :=
  match x with
  | S754_nan => true
  | S754_zero s | S754_infinity s | S754_finite s _ _ => negb s
  end.

Definition sign_clear (x : float) : bool := sf_sign_clear (Prim2SF x).

Definition nonneg_or_nan (x : float) : bool := is_nan x || (0 <=? x)%float.

Definition absorbing (P : float -> Prop) : Prop :=
  forall x y : float, P x -> P (x + y)%float /\ P (y + x)%float.

Definition nan_or_infinity (s : bool) (x : float) : Prop :=
  x = nan \/ Prim2SF x = S754_infinity s.

(** ** Rounding to nearest

    The vocabulary of the proofs about rounding.  [inbetween N D m l] says
    where the quotient [N / D] lies between the integers [m] and [m + 1],
    as the location [l] records it: on [m], below the middle, on the
    middle, or above it.  [finish s M f] is the last step of
    [binary_round_aux], which turns a rounded mantissa and its exponent
    into a number.  [SFint k x] says that [x] is the valid binary64 number
    of integer value [k], the positive zero for [k = 0]. *)

Definition inbetween (N D m : Z) (l : location) : Prop :=
  match l with
  | loc_Exact => N = m * D
  | loc_Inexact Lt => m * D < N /\ 2 * N < (2 * m + 1) * D
  | loc_Inexact Eq => 2 * N = (2 * m + 1) * D
  | loc_Inexact Gt => (2 * m + 1) * D < 2 * N /\ N < (m + 1) * D
  end%Z.

Definition finish (s : bool) (M f : Z) : spec_float :=
  match M with
  | Z0 => S754_zero s
  | Zpos p => if (f <=? emax - prec)%Z then S754_finite s p f
              else S754_infinity s
  | Zneg _ => S754_nan
  end.

Definition SFint (k : Z) (x : spec_float) : Prop :=
  match x with
  | S754_zero s => s = false /\ k = 0%Z
  | S754_finite s m f =>
      bounded prec emax m f = true /\ (f <= 0)%Z
      /\ cond_Zopp s (Zpos m) = (k * 2 ^ (- f))%Z
  | _ => False
  end.

(** ** Normal numbers and the neighbours of 1

    A positive normal number is finite and at least [2 ^ -1022]: a quotient
    that is one has neither overflowed nor underflowed.  The numbers
    [near_one] are those from [1 - 2 ^ -52] to [1 + 2 ^ -52]. *)

Definition normal (x : float) : bool :=
  (0x1p-1022 <=? x)%float && (x <? infinity)%float.

Definition near_one (x : float) : bool :=
  (0x1.ffffffffffffep-1 <=? x)%float && (x <=? 0x1.0000000000001p+0)%float.

(** ** The recursion of [pairwise_sum] never runs out of fuel *)

Section Fuel.
Context {T : Type} `{Scalar T}.

Lemma halves_shorter (n : nat) :
  PW_BLOCKSIZE < n ->
  let n2 := n / 2 - (n / 2) mod 8 in 0 < n2 /\ n2 < n.
Proof.
  unfold PW_BLOCKSIZE. intros Hn. cbv zeta.
  assert (H2 : n / 2 < n) by (apply Nat.div_lt; lia).
  assert (H64 : 64 <= n / 2) by (apply Nat.div_le_lower_bound; lia).
  assert (H8 : (n / 2) mod 8 < 8) by (apply Nat.mod_upper_bound; lia).
  lia.
Qed.

(** Any two amounts of fuel that are at least the length of the array
    give the same sum: the branch for exhausted fuel is not taken. *)
Lemma pairwise_sum_fuel (f1 : nat) :
  forall (f2 : nat) (a : list T),
    length a <= f1 -> length a <= f2 ->
    pairwise_sum f1 a = pairwise_sum f2 a.
Proof.
  induction f1 as [|f1 IH]; intros f2 a H1 H2.
  - destruct a; [|simpl in H1; lia]. destruct f2; reflexivity.
  - destruct f2 as [|f2].
    + destruct a; [|simpl in H2; lia]. reflexivity.
    + cbn [pairwise_sum].
      destruct (length a <? 8) eqn:E8; [reflexivity|].
      destruct (length a <=? PW_BLOCKSIZE) eqn:Eb; [reflexivity|].
      apply Nat.leb_gt in Eb.
      destruct (halves_shorter (length a) Eb) as [Hpos Hlt].
      cbv zeta in Hpos, Hlt.
      f_equal; apply IH.
      * rewrite length_firstn. lia.
      * rewrite length_firstn. lia.
      * rewrite length_skipn. lia.
      * rewrite length_skipn. lia.
Qed.
End Fuel.

(** ** Binary64 arithmetic

    Facts about IEEE 754 division and NaN, from the specification of the
    primitive floats. *)

Section Binary64.
Local Open Scope float_scope.

(** [x == 0.0] holds of both zeros and of nothing else. *)
Lemma eqb_zero_inv (y : float) :
  (y =? 0) = true -> exists s, Prim2SF y = S754_zero s.
Proof.
  rewrite eqb_spec. change (Prim2SF 0) with (S754_zero false).
  destruct (Prim2SF y) as [s|s| |s m e]; cbn; try discriminate.
  - intros _. now exists s.
  - destruct s; discriminate.
  - destruct s; discriminate.
Qed.

(** Dividing by a zero gives an infinity or a NaN. *)
Lemma div_by_zero_not_finite (x y : float) :
  (y =? 0) = true -> is_finite (x / y) = false.
Proof.
  intros Hy. destruct (eqb_zero_inv y Hy) as [s Es].
  unfold is_finite, is_nan, is_infinity.
  rewrite !eqb_spec, abs_spec, div_spec, Es.
  change (Prim2SF infinity) with (S754_infinity false).
  destruct (Prim2SF x) as [sx|sx| |sx mx ex]; try reflexivity;
    destruct sx, s; reflexivity.
Qed.

Lemma SFcompare_refl (x : spec_float) :
  x <> S754_nan -> SFcompare x x = Some Eq.
Proof.
  destruct x as [s|s| |s m e]; cbn; intros Hx.
  - reflexivity.
  - now destruct s.
  - now contradiction Hx.
  - destruct s; rewrite Z.compare_refl, Pos.compare_cont_refl; reflexivity.
Qed.

(** There is one NaN. *)
Lemma is_nan_inv (x : float) : is_nan x = true -> x = nan.
Proof.
  unfold is_nan. rewrite eqb_spec. intros Hx.
  apply Prim2SF_inj. change (Prim2SF nan) with S754_nan.
  destruct (Prim2SF x) as [s|s| |s m e] eqn:E; try reflexivity;
    unfold SFeqb in Hx; rewrite SFcompare_refl in Hx by discriminate;
    discriminate.
Qed.
End Binary64.

(** ** Rounding

    The subtraction [1 - c] of a binary64 number [c] between 0 and 1 is
    again between 0 and 1: the exact difference is below 1, and neither the
    shift to the target exponent nor rounding to nearest can carry it past
    1.  The proof follows the specification of the primitive floats
    ([SFsub], [binary_normalize], [binary_round_aux]). *)

Section Rounding.
Local Open Scope Z_scope.

Lemma shr_1_spec (mrs : shr_record) :
0 <= shr_m mrs ->
0 <= shr_m (shr_1 mrs) /\ 2 * shr_m (shr_1 mrs) <= shr_m mrs.
Proof.
destruct mrs as [m r s]. destruct m as [|p|p]; cbn [shr_m shr_1].
- lia.
- destruct p; cbn [shr_m]; lia.
- lia.
Qed.

Lemma iter_shr_1_spec (p : positive) :
forall mrs : shr_record,
  0 <= shr_m mrs ->
  0 <= shr_m (iter_pos shr_1 p mrs)
  /\ 2 ^ Zpos p * shr_m (iter_pos shr_1 p mrs) <= shr_m mrs.
Proof.
induction p as [p IH|p IH|]; intros mrs Hm; cbn [iter_pos].
- destruct (shr_1_spec mrs Hm) as [H1 L1].
  destruct (IH _ H1) as [H2 L2]. destruct (IH _ H2) as [H3 L3].
  split; [exact H3|].
  replace (Zpos p~1) with (Zpos p + Zpos p + 1) by lia.
  rewrite !Z.pow_add_r, Z.pow_1_r by lia.
  assert (Hk : 0 < 2 ^ Zpos p) by (apply Z.pow_pos_nonneg; lia).
  nia.
- destruct (IH _ Hm) as [H2 L2]. destruct (IH _ H2) as [H3 L3].
  split; [exact H3|].
  replace (Zpos p~0) with (Zpos p + Zpos p) by lia.
  rewrite !Z.pow_add_r by lia.
  assert (Hk : 0 < 2 ^ Zpos p) by (apply Z.pow_pos_nonneg; lia).
  nia.
- rewrite Z.pow_1_r. apply shr_1_spec, Hm.
Qed.

Lemma digits2_pos_bounds (m : positive) :
2 ^ (Zpos (digits2_pos m) - 1) <= Zpos m < 2 ^ Zpos (digits2_pos m).
Proof.
induction m as [m IH|m IH|]; cbn [digits2_pos].
- rewrite Pos2Z.inj_succ, Z.pow_succ_r by lia.
  replace (Z.succ (Zpos (digits2_pos m)) - 1)
    with (Z.succ (Zpos (digits2_pos m) - 1)) by lia.
  rewrite Z.pow_succ_r by lia. lia.
- rewrite Pos2Z.inj_succ, Z.pow_succ_r by lia.
  replace (Z.succ (Zpos (digits2_pos m)) - 1)
    with (Z.succ (Zpos (digits2_pos m) - 1)) by lia.
  rewrite Z.pow_succ_r by lia. lia.
- cbn. lia.
Qed.

Lemma fexp_binary64 (e : Z) : fexp prec emax e = Z.max (e - 53) (-1074).
Proof. reflexivity. Qed.

Lemma Zdigits2_le (m b : Z) :
0 <= m -> 0 <= b -> m <= 2 ^ b -> Zdigits2 m <= b + 1.
Proof.
intros Hm Hb Hmb. destruct m as [|p|p]; cbn [Zdigits2]; try lia.
destruct (digits2_pos_bounds p) as [Hlo _].
assert (H : Zpos (digits2_pos p) - 1 <= b).
{ apply (Z.pow_le_mono_r_iff 2); lia. }
lia.
Qed.

Lemma Zdigits2_lt (m b : Z) :
0 <= m -> 0 <= b -> m < 2 ^ b -> Zdigits2 m <= b.
Proof.
intros Hm Hb Hmb. destruct m as [|p|p]; cbn [Zdigits2]; try lia.
destruct (digits2_pos_bounds p) as [Hlo _].
assert (H : Zpos (digits2_pos p) - 1 < b).
{ apply (Z.pow_lt_mono_r_iff 2); lia. }
lia.
Qed.

(** What one call of [shr_fexp] on an exact mantissa does: nothing, or a
  shift to the exponent [fexp] gives, which divides the mantissa. *)
Lemma shr_fexp_exact (m e : Z) :
0 <= m ->
let '(mrs, e') := shr_fexp prec emax m e loc_Exact in
(mrs = Build_shr_record m false false /\ e' = e)
\/ (e < e' /\ e' = fexp prec emax (Zdigits2 m + e)
    /\ 0 <= shr_m mrs /\ 2 ^ (e' - e) * shr_m mrs <= m).
Proof.
intros Hm. unfold shr_fexp, shr. cbn [shr_record_of_loc].
destruct (fexp prec emax (Zdigits2 m + e) - e) as [|p|p] eqn:Ek.
- left. split; reflexivity.
- right.
  destruct (iter_shr_1_spec p (Build_shr_record m false false) Hm)
    as [H0 Hle].
  cbn [shr_m] in Hle.
  replace (e + Zpos p - e) with (Zpos p) by lia.
  repeat split; lia.
- left. split; reflexivity.
Qed.

Lemma round_nearest_even_bounds (m : Z) (l : location) :
m <= round_nearest_even m l <= m + 1.
Proof.
destruct l as [|[| |]]; cbn [round_nearest_even]; try lia.
destruct (Z.even m); lia.
Qed.

Lemma finish_in_unit (m e : Z) :
0 <= m <= 2 ^ (- e) -> e <= -52 ->
in_unit match m with
        | Z0 => S754_zero false
        | Zpos p =>
            if e <=? emax - prec then S754_finite false p e
            else S754_infinity false
        | Zneg _ => S754_nan
        end.
Proof.
intros [Hm Hle] He. destruct m as [|p|p]; [| |lia].
- split; reflexivity.
- replace (e <=? emax - prec) with true
    by (symmetry; apply Z.leb_le; unfold emax, prec; lia).
  split; [reflexivity|].
  unfold SFleb, sf_one. cbn [SFcompare].
  destruct (Z.compare_spec e (-52)) as [Ee|Ee|Ee]; [|reflexivity|lia].
  subst e. change (2 ^ (- -52)) with 4503599627370496 in Hle.
  rewrite Pos.compare_cont_spec. cbn [Pos.switch_Eq].
  destruct (Pos.compare_spec p 4503599627370496) as [E|E|E];
    try reflexivity. lia.
Qed.

Lemma binary_round_aux_in_unit (m e : Z) :
0 < m < 2 ^ (- e) -> e <= -52 ->
in_unit (binary_round_aux prec emax false m e loc_Exact).
Proof.
intros [Hm Hlt] He. unfold binary_round_aux.
assert (Hd : Zdigits2 m + e <= 0).
{ assert (Zdigits2 m <= - e) by (apply Zdigits2_lt; lia). lia. }
pose proof (shr_fexp_exact m e (Z.lt_le_incl _ _ Hm)) as S1.
destruct (shr_fexp prec emax m e loc_Exact) as [mrs1 e1].
set (mr := round_nearest_even (shr_m mrs1) (loc_of_shr_record mrs1)).
assert (Hr : 0 <= mr <= 2 ^ (- e1) /\ e1 <= -52).
{ pose proof (round_nearest_even_bounds (shr_m mrs1) (loc_of_shr_record mrs1))
    as Hb. fold mr in Hb.
  destruct S1 as [[-> ->]|(Hee & E1 & H0 & Hle)].
  - subst mr. cbn [shr_m loc_of_shr_record round_nearest_even]. lia.
  - rewrite fexp_binary64 in E1.
    assert (He1 : e1 <= -53) by lia.
    assert (Hs : shr_m mrs1 < 2 ^ (- e1)).
    { apply (Z.mul_lt_mono_pos_l (2 ^ (e1 - e))).
      - apply Z.pow_pos_nonneg; lia.
      - rewrite <- Z.pow_add_r by lia.
        replace (e1 - e + - e1) with (- e) by lia. lia. }
    lia. }
destruct Hr as [[Hr0 Hr1] He1].
pose proof (shr_fexp_exact mr e1 Hr0) as S2.
destruct (shr_fexp prec emax mr e1 loc_Exact) as [mrs2 e2].
apply finish_in_unit.
- destruct S2 as [[-> ->]|(Hee & E2 & H0 & Hle)].
  + cbn [shr_m]. lia.
  + rewrite fexp_binary64 in E2.
    assert (Hdr : Zdigits2 mr <= - e1 + 1) by (apply Zdigits2_le; lia).
    assert (He2 : e2 <= -52) by lia.
    split; [exact H0|].
    apply (Z.mul_le_mono_pos_l _ _ (2 ^ (e2 - e1))).
    * apply Z.pow_pos_nonneg; lia.
    * rewrite <- Z.pow_add_r by lia.
      replace (e2 - e1 + - e2) with (- e1) by lia. lia.
- destruct S2 as [[-> ->]|(Hee & E2 & H0 & Hle)]; [lia|].
  rewrite fexp_binary64 in E2.
  assert (Hdr : Zdigits2 mr <= - e1 + 1) by (apply Zdigits2_le; lia).
  lia.
Qed.

Lemma iter_xO_spec (m d : positive) :
Zpos (Pos.iter xO m d) = Zpos m * 2 ^ Zpos d.
Proof.
change (Pos.iter xO m d) with (shift_pos d m).
rewrite shift_pos_correct, Z.pow_pos_fold. lia.
Qed.

Lemma binary_normalize_in_unit (m e : Z) :
0 <= m < 2 ^ (- e) -> e <= -52 ->
in_unit (binary_normalize prec emax m e false).
Proof.
intros [Hm Hlt] He. destruct m as [|p|p]; [split; reflexivity| |lia].
cbn [binary_normalize]. unfold binary_round, shl_align.
assert (Hd : Zpos (digits2_pos p) <= - e).
{ apply (Zdigits2_lt (Zpos p)); lia. }
destruct (fexp prec emax (Zpos (digits2_pos p) + e) - e) as [|d|d] eqn:Ek;
  try (apply binary_round_aux_in_unit; lia).
apply binary_round_aux_in_unit.
- rewrite iter_xO_spec. split; [lia|].
  replace (- fexp prec emax (Zpos (digits2_pos p) + e))
    with (- e + Zpos d) by lia.
  rewrite Z.pow_add_r by lia.
  apply Z.mul_lt_mono_pos_r; [apply Z.pow_pos_nonneg; lia|exact Hlt].
- lia.
Qed.

(** A valid finite number has at most 53 digits. *)
Lemma bounded_digits (m : positive) (e : Z) :
bounded prec emax m e = true -> Zpos m < 2 ^ 53.
Proof.
unfold bounded, canonical_mantissa. intros Hb.
apply andb_prop in Hb. destruct Hb as [Hc _].
apply Z.eqb_eq in Hc. rewrite fexp_binary64 in Hc.
destruct (digits2_pos_bounds m) as [_ Hhi].
apply (Z.lt_le_trans _ _ _ Hhi), Z.pow_le_mono_r; lia.
Qed.

Lemma SFsub_one_in_unit (c : spec_float) :
valid_binary c = true ->
SFleb (S754_zero false) c = true ->
SFleb c sf_one = true ->
in_unit (SF64sub sf_one c).
Proof.
intros Hv H0 H1. destruct c as [s|s| |s m e].
- split; reflexivity.
- destruct s; discriminate.
- discriminate.
- destruct s; [discriminate|].
  cbn [valid_binary] in Hv. pose proof (bounded_digits m e Hv) as Hm.
  unfold SFleb, sf_one in H1. cbn [SFcompare] in H1.
  unfold SF64sub, sf_one, SFsub. cbn [cond_Zopp].
  destruct (Z.compare_spec e (-52)) as [Ee|Ee|Ee]; [| |discriminate].
  + subst e. rewrite Z.min_id.
    apply binary_normalize_in_unit; [|lia].
    unfold shl_align. rewrite !Z.sub_diag. cbn [fst].
    rewrite Pos.compare_cont_spec in H1. cbn [Pos.switch_Eq] in H1.
    change (2 ^ (- -52)) with 4503599627370496.
    destruct (Pos.compare_spec m 4503599627370496) as [E|E|E];
      try discriminate.
    * subst m. split; [discriminate|reflexivity].
    * apply Pos2Z.pos_lt_pos in E. lia.
  + rewrite Z.min_r by lia.
    apply binary_normalize_in_unit; [|lia].
    unfold shl_align. rewrite Z.sub_diag.
    destruct (e - -52) as [|d|d] eqn:Ed; try lia.
    cbn [fst]. rewrite iter_xO_spec.
    change (Zpos 4503599627370496) with (2 ^ 52).
    rewrite <- Z.pow_add_r by lia.
    replace (52 + Zpos d) with (- e) by lia.
    assert (2 ^ 53 <= 2 ^ (- e)) by (apply Z.pow_le_mono_r; lia).
    lia.
Qed.

Lemma one_minus_unit (c : float) :
(0 <=? c)%float = true -> (c <=? 1)%float = true ->
(0 <=? 1 - c)%float = true /\ (1 - c <=? 1)%float = true.
Proof.
rewrite !leb_spec, sub_spec.
change (Prim2SF 0) with (S754_zero false).
change (Prim2SF 1) with sf_one.
intros H0 H1. apply SFsub_one_in_unit; auto using Prim2SF_valid.
Qed.
End Rounding.

(** ** The stand-in distribution function is NaN or between 0 and 1 *)

Section Order.
Local Open Scope float_scope.

Lemma SFcompare_antisym (x y : spec_float) :
SFcompare y x = option_map CompOpp (SFcompare x y).
Proof.
destruct x as [sx|sx| |sx mx ex], y as [sy|sy| |sy my ey]; cbn;
  try reflexivity; try (destruct sx; reflexivity);
  try (destruct sy; reflexivity); try (destruct sx, sy; reflexivity).
destruct sx, sy; cbn; try reflexivity;
  rewrite (Z.compare_antisym ex ey);
  destruct (ex ?= ey)%Z; cbn; try reflexivity;
  pose proof (Pos.compare_cont_antisym mx my Eq) as A;
  cbn [CompOpp] in A; rewrite <- A;
  destruct (Pos.compare_cont Eq mx my); reflexivity.
Qed.

Lemma SFcompare_None (x y : spec_float) :
SFcompare x y = None -> x = S754_nan \/ y = S754_nan.
Proof.
destruct x as [sx|sx| |sx mx ex], y as [sy|sy| |sy my ey]; cbn;
  try discriminate; auto.
Qed.

Lemma is_nan_false (x : float) : is_nan x = false -> Prim2SF x <> S754_nan.
Proof.
unfold is_nan. rewrite eqb_spec. intros H E. rewrite E in H. discriminate.
Qed.

(** Two numbers that are not NaN are comparable. *)
Lemma leb_total (x y : float) :
is_nan x = false -> is_nan y = false ->
(x <=? y) = false -> (y <=? x) = true.
Proof.
intros Hx Hy. apply is_nan_false in Hx, Hy.
rewrite !leb_spec. unfold SFleb.
rewrite (SFcompare_antisym (Prim2SF x) (Prim2SF y)).
destruct (SFcompare (Prim2SF x) (Prim2SF y)) as [[| |]|] eqn:Ec; cbn;
  try discriminate; try reflexivity.
apply SFcompare_None in Ec. destruct Ec; contradiction.
Qed.

Lemma uniform_cdf_unit_or_nan (x : float) (dfn dfd : Z) :
unit_or_nan (uniform_cdf x dfn dfd) = true.
Proof.
unfold uniform_cdf.
destruct (is_nan x) eqn:Hn; [reflexivity|].
destruct (x <=? 0) eqn:H0; [reflexivity|].
destruct (1 <=? x) eqn:H1; [reflexivity|].
unfold unit_or_nan. rewrite Hn. cbn [orb].
rewrite (leb_total x 0 Hn eq_refl H0), (leb_total 1 x eq_refl Hn H1).
reflexivity.
Qed.

Lemma stand_in_p_values : p_values_of_scipy (stand_in uniform_cdf).
Proof.
repeat split; try discriminate.
intros x dfn dfd. apply uniform_cdf_unit_or_nan.
Qed.

(** [1 - c] is NaN or between 0 and 1 when [c] is. *)
Lemma one_minus_unit_or_nan (c : float) :
unit_or_nan c = true -> unit_or_nan (1 - c) = true.
Proof.
unfold unit_or_nan. intros Hc.
apply orb_true_iff in Hc. destruct Hc as [Hn|Hc].
- rewrite (is_nan_inv c Hn). reflexivity.
- apply andb_true_iff in Hc. destruct Hc as [H0 H1].
  destruct (one_minus_unit c H0 H1) as [G0 G1].
  rewrite G0, G1. apply orb_true_r.
Qed.
End Order.

(** ** The variance-ratio F-test on binary64 samples *)

(** C4, as the program has it.  A second sample of zero variance raises
    nothing: the division is the IEEE 754 one, so the call returns the pair
    [(F, p)] where [F = var(sample1) / var(sample2)] is an infinity or a
    NaN, and [p = 1 - CDF_F(F, n1 - 1, n2 - 1)]. *)
Theorem two_sample_variance_f_test_zero_variance
    (stats : scipy_stats float) (sample1 sample2 : list float) :
  (2 <= length sample1)%nat ->
  (2 <= length sample2)%nat ->
  (np_var sample2 1 =? 0)%float = true ->
  exists F p : float,
    two_sample_variance_f_test stats sample1 sample2 = Returns (F, p)
    /\ F = (np_var sample1 1 / np_var sample2 1)%float
    /\ is_finite F = false
    /\ p = (1 - f_cdf stats F (len sample1 - 1) (len sample2 - 1))%float.
Proof.
  intros _ _ Hzero.
  eexists; eexists; split; [reflexivity|].
  split; [reflexivity|]. split; [|reflexivity].
  apply div_by_zero_not_finite, Hzero.
Qed.

Lemma two_sample_variance_f_test_zero_variance_witness :
  exists F p : float,
    two_sample_variance_f_test (stand_in uniform_cdf) [1; 2]%float [3; 3]%float
    = Returns (F, p)
    /\ F = (np_var [1; 2] 1 / np_var [3; 3] 1)%float
    /\ is_finite F = false
    /\ p = (1 - uniform_cdf F (len [1; 2]%float - 1) (len [3; 3]%float - 1))%float.
Proof.
  apply (two_sample_variance_f_test_zero_variance
           (stand_in uniform_cdf) [1; 2]%float [3; 3]%float).
  - simpl. lia.
  - simpl. lia.
  - vm_compute. reflexivity.
Defined.

(** C4, as stated, fails: with [sample1 = [1, 2]] and the constant
    [sample2 = [3, 3]] the call returns [(inf, 1 - CDF_F(inf, 1, 1))]. *)
Lemma two_sample_variance_f_test_zero_variance_returns :
  let sample1 := [1; 2]%float in
  let sample2 := [3; 3]%float in
  (2 <= length sample1)%nat
  /\ (2 <= length sample2)%nat
  /\ np_var sample2 1 = 0%float
  /\ forall stats : scipy_stats float,
       two_sample_variance_f_test stats sample1 sample2
       = Returns (infinity, (1 - f_cdf stats infinity 1 1)%float)
       /\ forall e : exn,
            two_sample_variance_f_test stats sample1 sample2 <> Raises e.
Proof.
  cbv zeta. repeat split; try (simpl; lia); try discriminate.
Qed.

(** [two_sample_variance_f_test] checks nothing and divides in IEEE 754
    arithmetic: it returns a pair for every two samples, the empty ones
    included, and never raises. *)
Lemma two_sample_variance_f_test_returns
    (stats : scipy_stats float) (sample1 sample2 : list float) :
  exists F p : float,
    two_sample_variance_f_test stats sample1 sample2 = Returns (F, p).
Proof.
  eexists; eexists. reflexivity.
Qed.

(** A constant sample need not have a computed variance of zero: the mean
    of three times 0.1 is rounded to the next number above 0.1, and the
    variance [np.var] returns is positive. *)
Lemma constant_sample_positive_variance :
  let c := 0x1.999999999999ap-4%float in
  (np_var [c; c; c] 1 =? 0)%float = false
  /\ (0 <? np_var [c; c; c] 1)%float = true.
Proof.
  cbv zeta. split; vm_compute; reflexivity.
Qed.

(** C8, as stated, fails: for [a = [0, 1]] (variance 0.5) and
    [b = [0, 7]] (variance 24.5) the two F statistics are 0.5 / 24.5 and
    49, and their binary64 product is below 1. *)
Lemma f_statistics_product_below_one :
  let a := [0; 1]%float in
  let b := [0; 7]%float in
  (2 <= length a)%nat /\ (2 <= length b)%nat
  /\ (np_var a 1 =? 0)%float = false
  /\ (np_var b 1 =? 0)%float = false
  /\ forall stats : scipy_stats float,
     exists Fab pab Fba pba : float,
       two_sample_variance_f_test stats a b = Returns (Fab, pab)
       /\ two_sample_variance_f_test stats b a = Returns (Fba, pba)
       /\ (Fab * Fba =? 1)%float = false
       /\ (Fab * Fba <? 1)%float = true.
Proof.
  cbv zeta. repeat split; try (simpl; lia).
  intros stats. do 4 eexists.
  split; [reflexivity|]. split; [reflexivity|].
  split; vm_compute; reflexivity.
Qed.

(** C10, as stated, fails: [[1, 3, 0]] is a permutation of [[0, 3, 1]],
    but the squared deviations are added in another order and the rounded
    variances differ, and with them the F statistics. *)
Lemma two_sample_variance_f_test_order_matters :
  let sample1 := [0; 3; 1]%float in
  let permuted1 := [1; 3; 0]%float in
  let sample2 := [0; 1]%float in
  (2 <= length sample1)%nat /\ (2 <= length sample2)%nat
  /\ (np_var sample2 1 =? 0)%float = false
  /\ Permutation sample1 permuted1
  /\ (np_var sample1 1 <? np_var permuted1 1)%float = true
  /\ forall stats : scipy_stats float,
       two_sample_variance_f_test stats permuted1 sample2
       <> two_sample_variance_f_test stats sample1 sample2.
Proof.
  cbv zeta. repeat split; try (simpl; lia).
  - (* swap the ends of the list *)
    apply (perm_trans (l' := [0; 1; 3]%float)).
    + apply perm_skip, perm_swap.
    + apply (perm_trans (l' := [1; 0; 3]%float)).
      * apply perm_swap.
      * apply perm_skip, perm_swap.
  - intros stats Heq.
    apply (f_equal (fun o : outcome (float * float) =>
                      match o with
                      | Returns (F, _) =>
                          (F =? np_var [1; 3; 0] 1 / np_var [0; 1] 1)%float
                      | Raises _ => false
                      end)) in Heq.
    vm_compute in Heq. discriminate.
Qed.

(** ** The four tests of scipy.stats

    Unpacking the pair a call returns and packing it again changes
    nothing: each of the four functions returns what [scipy.stats] returns
    and raises what it raises. *)

Lemma repack {T : Type} (m : outcome (T * T)) :
  ('(statistic, p_value) <- m ;; Returns (statistic, p_value)) = m.
Proof.
  destruct m as [[statistic p_value]|e]; reflexivity.
Qed.

Lemma one_sample_t_test_is_ttest_1samp {T : Type} `{Scalar T}
    (stats : scipy_stats T) (sample : list T) (population_mean : T) :
  one_sample_t_test stats sample population_mean
  = ttest_1samp stats sample population_mean.
Proof. apply repack. Qed.

Lemma paired_sample_t_test_is_ttest_rel {T : Type} `{Scalar T}
    (stats : scipy_stats T) (sample1 sample2 : list T) :
  paired_sample_t_test stats sample1 sample2
  = ttest_rel stats sample1 sample2.
Proof. apply repack. Qed.

Lemma independent_two_sample_t_test_is_ttest_ind {T : Type} `{Scalar T}
    (stats : scipy_stats T) (sample1 sample2 : list T) :
  independent_two_sample_t_test stats sample1 sample2
  = ttest_ind stats sample1 sample2.
Proof. apply repack. Qed.

Lemma one_way_anova_f_test_is_f_oneway {T : Type} `{Scalar T}
    (stats : scipy_stats T) (groups : list (list T)) :
  one_way_anova_f_test stats groups = f_oneway stats groups.
Proof. apply repack. Qed.

(** ** The p-values of the five tests *)

(** C9, as the program has it.  Provided every value of [stats.f.cdf] and
    every p-value a [scipy.stats] test returns is NaN or between 0 and 1,
    the p-value of every result that one of the five functions returns is
    NaN or between 0 and 1: the four tests of [scipy.stats] hand back its
    p-value, and [two_sample_variance_f_test] returns 1 minus the value of
    the distribution function. *)
Theorem p_value_unit_or_nan (stats : scipy_stats float) :
  p_values_of_scipy stats ->
  (forall sample mu t p,
      one_sample_t_test stats sample mu = Returns (t, p) ->
      unit_or_nan p = true)
  /\ (forall sample1 sample2 t p,
        paired_sample_t_test stats sample1 sample2 = Returns (t, p) ->
        unit_or_nan p = true)
  /\ (forall sample1 sample2 t p,
        independent_two_sample_t_test stats sample1 sample2 = Returns (t, p) ->
        unit_or_nan p = true)
  /\ (forall groups f p,
        one_way_anova_f_test stats groups = Returns (f, p) ->
        unit_or_nan p = true)
  /\ (forall sample1 sample2 : list float,
        exists f p,
          two_sample_variance_f_test stats sample1 sample2 = Returns (f, p)
          /\ unit_or_nan p = true).
Proof.
  intros (Hcdf & H1 & Hrel & Hind & Hone).
  repeat split.
  - intros sample mu t p. unfold one_sample_t_test. rewrite repack.
    apply H1.
  - intros sample1 sample2 t p. unfold paired_sample_t_test. rewrite repack.
    apply Hrel.
  - intros sample1 sample2 t p. unfold independent_two_sample_t_test.
    rewrite repack. apply Hind.
  - intros groups f p. unfold one_way_anova_f_test. rewrite repack.
    apply Hone.
  - intros sample1 sample2. eexists; eexists. split; [reflexivity|].
    apply one_minus_unit_or_nan, Hcdf.
Qed.

Lemma p_value_unit_or_nan_witness :
  (forall sample mu t p,
      one_sample_t_test (stand_in uniform_cdf) sample mu = Returns (t, p) ->
      unit_or_nan p = true)
  /\ (forall sample1 sample2 t p,
        paired_sample_t_test (stand_in uniform_cdf) sample1 sample2
        = Returns (t, p) ->
        unit_or_nan p = true)
  /\ (forall sample1 sample2 t p,
        independent_two_sample_t_test (stand_in uniform_cdf) sample1 sample2
        = Returns (t, p) ->
        unit_or_nan p = true)
  /\ (forall groups f p,
        one_way_anova_f_test (stand_in uniform_cdf) groups = Returns (f, p) ->
        unit_or_nan p = true)
  /\ (forall sample1 sample2 : list float,
        exists f p,
          two_sample_variance_f_test (stand_in uniform_cdf) sample1 sample2
          = Returns (f, p)
          /\ unit_or_nan p = true).
Proof.
  apply (p_value_unit_or_nan (stand_in uniform_cdf)).
  apply stand_in_p_values.
Defined.

(** C9, as stated, fails: both samples constant, the F statistic is 0 / 0,
    a NaN, the distribution function of a NaN is a NaN, and the call
    returns [(nan, nan)]; a NaN is neither at least 0 nor at most 1. *)
Lemma two_sample_variance_f_test_nan_p_value :
  let sample1 := [1; 1]%float in
  let sample2 := [2; 2]%float in
  (forall stats : scipy_stats float,
      f_cdf stats nan 1 1 = nan ->
      two_sample_variance_f_test stats sample1 sample2 = Returns (nan, nan))
  /\ f_cdf (stand_in uniform_cdf) nan 1 1 = nan
  /\ two_sample_variance_f_test (stand_in uniform_cdf) sample1 sample2
     = Returns (nan, nan)
  /\ (0 <=? nan)%float = false
  /\ (nan <=? 1)%float = false.
Proof.
  cbv zeta. repeat split.
  intros stats Hnan. unfold two_sample_variance_f_test, len.
  change (np_var [1; 1]%float 1) with 0%float.
  change (np_var [2; 2]%float 1) with 0%float.
  change (div 0%float 0%float) with nan.
  cbn [length Z.of_nat Pos.of_succ_nat Pos.succ Z.sub Z.add Z.opp Z.pos_sub
       Pos.pred_double].
  rewrite Hnan. reflexivity.
Qed.

(** ** The sign of the F statistic

    Squares have a clear sign, sums of numbers of clear sign have one, and
    so has their quotient by a count: the variance [np.var] returns is
    never negative, nor is the ratio of two variances. *)

Section Signs.
Local Open Scope float_scope.

Lemma binary_round_aux_sign_clear (m e : Z) (l : location) :
  sf_sign_clear (binary_round_aux prec emax false m e l) = true.
Proof.
  unfold binary_round_aux.
  destruct (shr_fexp prec emax m e l) as [mrs1 e1].
  destruct (shr_fexp prec emax _ e1 loc_Exact) as [mrs2 e2].
  destruct (shr_m mrs2); try reflexivity.
  destruct (e2 <=? emax - prec)%Z; reflexivity.
Qed.

Lemma binary_normalize_sign_clear (m e : Z) :
  (0 <= m)%Z -> sf_sign_clear (binary_normalize prec emax m e false) = true.
Proof.
  intros Hm. destruct m as [|p|p]; [reflexivity| |lia].
  cbn [binary_normalize]. unfold binary_round.
  destruct (shl_align p e _) as [mz ez].
  apply binary_round_aux_sign_clear.
Qed.

Lemma add_sign_clear (x y : float) :
  sign_clear x = true -> sign_clear y = true -> sign_clear (x + y) = true.
Proof.
  unfold sign_clear. rewrite add_spec.
  destruct (Prim2SF x) as [sx|sx| |sx mx ex], (Prim2SF y) as [sy|sy| |sy my ey];
    cbn [sf_sign_clear]; intros Hx Hy;
    try (apply negb_true_iff in Hx; subst sx);
    try (apply negb_true_iff in Hy; subst sy);
    try reflexivity.
  unfold SF64add, SFadd. cbn [cond_Zopp].
  apply binary_normalize_sign_clear. lia.
Qed.

Lemma mul_self_sign_clear (x : float) : sign_clear (x * x) = true.
Proof.
  unfold sign_clear. rewrite mul_spec.
  destruct (Prim2SF x) as [s|s| |s m e]; unfold SF64mul, SFmul;
    try reflexivity; destruct s; try reflexivity;
    cbn [xorb]; apply binary_round_aux_sign_clear.
Qed.

Lemma div_sign_clear (x y : float) :
  sign_clear x = true -> sign_clear y = true -> sign_clear (x / y) = true.
Proof.
  unfold sign_clear. rewrite div_spec.
  destruct (Prim2SF x) as [sx|sx| |sx mx ex], (Prim2SF y) as [sy|sy| |sy my ey];
    cbn [sf_sign_clear]; intros Hx Hy;
    try (apply negb_true_iff in Hx; subst sx);
    try (apply negb_true_iff in Hy; subst sy);
    try reflexivity.
  unfold SF64div, SFdiv.
  destruct (SFdiv_core_binary prec emax (Z.pos mx) ex (Z.pos my) ey)
    as [[mz ez] lz].
  apply binary_round_aux_sign_clear.
Qed.

Lemma of_count_sign_clear (k : Z) : sign_clear (of_count k) = true.
Proof.
  unfold sign_clear. cbn [of_count binary64].
  rewrite of_uint63_spec.
  apply binary_normalize_sign_clear.
  apply Uint63.to_Z_bounded.
Qed.

Lemma sign_clear_nonneg_or_nan (x : float) :
  sign_clear x = true -> nonneg_or_nan x = true.
Proof.
  unfold sign_clear, nonneg_or_nan, is_nan.
  rewrite eqb_spec, leb_spec. change (Prim2SF 0) with (S754_zero false).
  destruct (Prim2SF x) as [s|s| |s m e]; cbn [sf_sign_clear];
    intros Hs; try (apply negb_true_iff in Hs; subst s); try reflexivity.
  apply orb_true_r.
Qed.
End Signs.

Section SignsOfSums.
Local Open Scope float_scope.

Lemma sequential_sum_sign_clear (a : list float) :
  forall res : float,
    sign_clear res = true -> Forall (fun v => sign_clear v = true) a ->
    sign_clear (sequential_sum res a) = true.
Proof.
  unfold sequential_sum.
  induction a as [|v a IH]; intros res Hres Ha; cbn [fold_left].
  - exact Hres.
  - inversion Ha as [|v' a' Hv Ha']; subst.
    apply IH; [|exact Ha']. apply add_sign_clear; assumption.
Qed.

Lemma unrolled_sum_sign_clear (n : nat) :
  forall (a : list float) (r0 r1 r2 r3 r4 r5 r6 r7 : float),
    (length a <= n)%nat ->
    Forall (fun v => sign_clear v = true) (r0 :: r1 :: r2 :: r3 :: r4 :: r5 :: r6 :: r7 :: a) ->
    sign_clear (unrolled_sum r0 r1 r2 r3 r4 r5 r6 r7 a) = true.
Proof.
  induction n as [|n IH]; intros a r0 r1 r2 r3 r4 r5 r6 r7 Hn Hall;
    repeat match goal with
           | H : Forall _ (_ :: _) |- _ =>
               let Hv := fresh "Hv" in
               let Ht := fresh "Ht" in
               inversion H as [|? ? Hv Ht]; subst; clear H
           end.
  - destruct a; [|simpl in Hn; lia].
    cbn [unrolled_sum]. apply sequential_sum_sign_clear; [|constructor].
    repeat apply add_sign_clear; assumption.
  - destruct a as [|b0 [|b1 [|b2 [|b3 [|b4 [|b5 [|b6 [|b7 rest]]]]]]]];
      cbn [unrolled_sum];
      repeat match goal with
             | H : Forall _ (_ :: _) |- _ =>
                 let Hv := fresh "Hv" in
                 let Ht := fresh "Ht" in
                 inversion H as [|? ? Hv Ht]; subst; clear H
             end;
      try (apply sequential_sum_sign_clear;
           [repeat apply add_sign_clear; assumption
           |repeat (constructor; try assumption)]).
    apply IH; [simpl in Hn; lia|].
    repeat (constructor; [apply add_sign_clear; assumption|]).
    assumption.
Qed.
End SignsOfSums.

Section SignsOfVariance.
Local Open Scope float_scope.

Lemma Forall_take {A : Type} (P : A -> Prop) (n : nat) (l : list A) :
  Forall P l -> Forall P (firstn n l).
Proof.
  intros H. apply Forall_forall. intros x Hx.
  rewrite Forall_forall in H. apply H.
  rewrite <- (firstn_skipn n l). apply in_or_app. now left.
Qed.

Lemma Forall_drop {A : Type} (P : A -> Prop) (n : nat) (l : list A) :
  Forall P l -> Forall P (skipn n l).
Proof.
  intros H. apply Forall_forall. intros x Hx.
  rewrite Forall_forall in H. apply H.
  rewrite <- (firstn_skipn n l). apply in_or_app. now right.
Qed.

Lemma pairwise_sum_sign_clear (fuel : nat) :
  forall a : list float,
    Forall (fun v => sign_clear v = true) a ->
    sign_clear (pairwise_sum fuel a) = true.
Proof.
  assert (Hseq : forall a : list float,
             Forall (fun v => sign_clear v = true) a ->
             sign_clear (sequential_sum zero a) = true).
  { intros a Ha. apply sequential_sum_sign_clear; [reflexivity|exact Ha]. }
  induction fuel as [|fuel IH]; intros a Ha; cbn [pairwise_sum];
    destruct (length a <? 8)%nat; try (apply Hseq; exact Ha);
    destruct (length a <=? PW_BLOCKSIZE)%nat;
    try (destruct a as [|b0 [|b1 [|b2 [|b3 [|b4 [|b5 [|b6 [|b7 rest]]]]]]]];
         try (apply Hseq; exact Ha);
         apply (unrolled_sum_sign_clear (length rest)); [lia|exact Ha]).
  - apply Hseq; exact Ha.
  - apply add_sign_clear; apply IH.
    + apply Forall_take, Ha.
    + apply Forall_drop, Ha.
Qed.

Lemma add_reduce_sign_clear (a : list float) :
  Forall (fun v => sign_clear v = true) a ->
  sign_clear (add_reduce a) = true.
Proof.
  intros Ha. unfold add_reduce.
  apply add_sign_clear; [reflexivity|].
  apply pairwise_sum_sign_clear, Ha.
Qed.

(** Whatever the sample holds, the variance [np.var] returns is a NaN or
    has a clear sign bit. *)
Lemma np_var_sign_clear (a : list float) (ddof : Z) :
  sign_clear (np_var a ddof) = true.
Proof.
  unfold np_var. apply div_sign_clear.
  - apply add_reduce_sign_clear.
    apply Forall_forall. intros v Hv.
    apply in_map_iff in Hv. destruct Hv as [d [<- _]].
    apply mul_self_sign_clear.
  - apply of_count_sign_clear.
Qed.
End SignsOfVariance.

Section FStatistic.
Local Open Scope float_scope.

(** The F statistic is never negative: for every two samples the call
    returns an [F] that is a NaN or at least 0 (an infinity can only be
    the positive one). *)
Theorem f_statistic_nonneg_or_nan
    (stats : scipy_stats float) (sample1 sample2 : list float) :
  exists F p : float,
    two_sample_variance_f_test stats sample1 sample2 = Returns (F, p)
    /\ nonneg_or_nan F = true.
Proof.
  eexists; eexists. split; [reflexivity|].
  apply sign_clear_nonneg_or_nan, div_sign_clear; apply np_var_sign_clear.
Qed.

(** Dividing a number of clear sign by a zero of clear sign gives NaN for
    a NaN or a zero, and the positive infinity otherwise. *)
Lemma div_by_zero_value (x y : float) :
  sign_clear x = true -> sign_clear y = true -> (y =? 0) = true ->
  x / y = if is_nan x || (x =? 0) then nan else infinity.
Proof.
  intros Hx Hy Hz. destruct (eqb_zero_inv y Hz) as [s Es].
  unfold sign_clear in Hx, Hy. rewrite Es in Hy. cbn in Hy.
  apply negb_true_iff in Hy. subst s.
  apply Prim2SF_inj. rewrite div_spec, Es.
  unfold is_nan. rewrite !eqb_spec.
  change (Prim2SF 0) with (S754_zero false).
  destruct (Prim2SF x) as [sx|sx| |sx mx ex] eqn:Ex; cbn in Hx;
    try (apply negb_true_iff in Hx; subst sx); try reflexivity.
  unfold SFeqb. rewrite SFcompare_refl by discriminate. reflexivity.
Qed.

(** When the variance of the second sample is zero, the F statistic is
    NaN if the variance of the first sample is zero or NaN, and the
    positive infinity otherwise. *)
Theorem two_sample_variance_f_test_zero_variance_value
    (stats : scipy_stats float) (sample1 sample2 : list float) :
  (np_var sample2 1 =? 0) = true ->
  exists p : float,
    two_sample_variance_f_test stats sample1 sample2
    = Returns (if is_nan (np_var sample1 1) || (np_var sample1 1 =? 0)
               then nan else infinity, p).
Proof.
  intros Hz. eexists. unfold two_sample_variance_f_test.
  cbn [div binary64].
  rewrite (div_by_zero_value _ _ (np_var_sign_clear sample1 1)
             (np_var_sign_clear sample2 1) Hz).
  reflexivity.
Qed.
End FStatistic.

(** ** Exact quotients and short samples

    Dividing a finite number by 1 or by itself is exact.  With one
    observation the mean is the observation, the deviation is zero or NaN,
    and the variance with [ddof = 1] is 0 / 0. *)

Section Exactness.
Local Open Scope Z_scope.

Lemma canonical_fexp (m : positive) (e : Z) :
  bounded prec emax m e = true ->
  fexp prec emax (Zpos (digits2_pos m) + e) = e /\ e <= emax - prec.
Proof.
  unfold bounded, canonical_mantissa. intros Hb.
  apply andb_prop in Hb. destruct Hb as [Hc He].
  apply Z.eqb_eq in Hc. apply Z.leb_le in He. split; assumption.
Qed.

Lemma shr_fexp_canonical (m : positive) (e : Z) :
  bounded prec emax m e = true ->
  shr_fexp prec emax (Zpos m) e loc_Exact
  = (Build_shr_record (Zpos m) false false, e).
Proof.
  intros Hb. destruct (canonical_fexp m e Hb) as [Hc _].
  unfold shr_fexp. cbn [Zdigits2 shr_record_of_loc].
  rewrite Hc, Z.sub_diag. reflexivity.
Qed.

(** Once the first shift has produced a canonical mantissa exactly,
    rounding returns it. *)
Lemma binary_round_aux_after (sx : bool) (mx ex : Z) (m : positive) (e : Z) :
  shr_fexp prec emax mx ex loc_Exact
  = (Build_shr_record (Zpos m) false false, e) ->
  bounded prec emax m e = true ->
  binary_round_aux prec emax sx mx ex loc_Exact = S754_finite sx m e.
Proof.
  intros Hs Hb. unfold binary_round_aux. rewrite Hs.
  cbn [shr_m loc_of_shr_record round_nearest_even].
  rewrite (shr_fexp_canonical m e Hb). cbn [shr_m].
  destruct (canonical_fexp m e Hb) as [_ He].
  apply Z.leb_le in He. rewrite He. reflexivity.
Qed.

Lemma shr_fexp_double (m : positive) (e : Z) :
  bounded prec emax m e = true ->
  shr_fexp prec emax (Zpos m~0) (e - 1) loc_Exact
  = (Build_shr_record (Zpos m) false false, e).
Proof.
  intros Hb. destruct (canonical_fexp m e Hb) as [Hc _].
  unfold shr_fexp. cbn [Zdigits2 shr_record_of_loc digits2_pos].
  rewrite Pos2Z.inj_succ.
  replace (Z.succ (Zpos (digits2_pos m)) + (e - 1))
    with (Zpos (digits2_pos m) + e) by lia.
  rewrite Hc. replace (e - (e - 1)) with 1 by lia.
  cbn [shr iter_pos shr_1 orb]. f_equal. lia.
Qed.
End Exactness.

Section Division.
Local Open Scope Z_scope.

Lemma div_eucl_exact (q b : Z) : 0 < b -> Z.div_eucl (q * b) b = (q, 0).
Proof.
  intros Hb.
  assert (H : Z.div_eucl (q * b) b = ((q * b) / b, (q * b) mod b)).
  { unfold Z.div, Z.modulo. now destruct (Z.div_eucl (q * b) b). }
  rewrite H, Z.div_mul, Z.mod_mul by lia. reflexivity.
Qed.

Lemma new_location_zero (n : Z) : new_location n 0 = loc_Exact.
Proof.
  unfold new_location, new_location_even, new_location_odd.
  destruct (Z.even n); reflexivity.
Qed.

(** A finite number divided by itself is 1. *)
Lemma SFdiv_self (s : bool) (m : positive) (e : Z) :
  SF64div (S754_finite s m e) (S754_finite s m e) = sf_one.
Proof.
  unfold SF64div, SFdiv, SFdiv_core_binary.
  rewrite !Z.sub_diag.
  change (Z.min (fexp prec emax 0) 0) with (-53).
  change (0 - -53) with 53.
  cbv beta iota zeta.
  rewrite Z.shiftl_mul_pow2 by lia.
  rewrite (Z.mul_comm (Zpos m)), div_eucl_exact by lia.
  rewrite new_location_zero, xorb_nilpotent.
  vm_compute. reflexivity.
Qed.

(** A finite number divided by 1 is itself. *)
Lemma SFdiv_one (s : bool) (m : positive) (e : Z) :
  bounded prec emax m e = true ->
  SF64div (S754_finite s m e) sf_one = S754_finite s m e.
Proof.
  intros Hb. destruct (canonical_fexp m e Hb) as [Hc _].
  rewrite fexp_binary64 in Hc.
  unfold SF64div, sf_one, SFdiv, SFdiv_core_binary.
  change (Zdigits2 (Zpos 4503599627370496)) with 53.
  cbn [Zdigits2].
  set (d := Zpos (digits2_pos m)) in *.
  rewrite fexp_binary64.
  assert (He' : Z.max (d + e - (53 + -52) - 53) (-1074) = e
                \/ (Z.max (d + e - (53 + -52) - 53) (-1074) = e - 1
                    /\ -1074 < e)) by lia.
  set (e' := Z.max (d + e - (53 + -52) - 53) (-1074)) in *.
  rewrite Z.min_l by lia.
  destruct (e - -52 - e') as [|k|k] eqn:Ek; try lia.
  rewrite Z.shiftl_mul_pow2 by lia.
  replace (Zpos m * 2 ^ Zpos k)
    with ((Zpos m * 2 ^ (e - e')) * 4503599627370496).
  2:{ rewrite <- Z.mul_assoc. f_equal.
      change 4503599627370496 with (2 ^ 52).
      rewrite <- Z.pow_add_r by lia. f_equal. lia. }
  rewrite div_eucl_exact by lia.
  rewrite new_location_zero, xorb_false_r.
  apply binary_round_aux_after; [|exact Hb].
  destruct He' as [He'|[He' Hn]].
  - rewrite He', Z.sub_diag, Z.mul_1_r. apply shr_fexp_canonical, Hb.
  - rewrite He'. replace (e - (e - 1)) with 1 by lia.
    replace (Zpos m * 2 ^ 1) with (Zpos m~0) by (rewrite Z.pow_1_r; lia).
    apply shr_fexp_double, Hb.
Qed.
End Division.

Section ShortSamples.
Local Open Scope float_scope.

Lemma np_var_singleton_unfold (a : float) :
  np_var [a] 1
  = (0 + (0 + (a - (0 + (0 + a)) / 1) * (a - (0 + (0 + a)) / 1))) / 0.
Proof. reflexivity. Qed.

Lemma add_zero_finite (x : float) (s : bool) (m : positive) (e : Z) :
  Prim2SF x = S754_finite s m e -> 0 + x = x.
Proof.
  intros E. apply Prim2SF_inj. rewrite add_spec, E. reflexivity.
Qed.

Lemma sub_self_finite (x : float) (s : bool) (m : positive) (e : Z) :
  Prim2SF x = S754_finite s m e -> x - x = 0.
Proof.
  intros E. apply Prim2SF_inj. rewrite sub_spec, E.
  unfold SF64sub, SFsub. rewrite Z.sub_diag. reflexivity.
Qed.

Lemma div_one_finite (x : float) (s : bool) (m : positive) (e : Z) :
  Prim2SF x = S754_finite s m e -> x / 1 = x.
Proof.
  intros E. apply Prim2SF_inj. rewrite div_spec, E.
  change (Prim2SF 1) with sf_one. apply SFdiv_one.
  pose proof (Prim2SF_valid x) as Hv. rewrite E in Hv. exact Hv.
Qed.

(** The variance with [ddof = 1] of a single observation is NaN,
    whatever the observation. *)
Lemma np_var_singleton (a : float) : np_var [a] 1 = nan.
Proof.
  rewrite np_var_singleton_unfold.
  destruct (Prim2SF a) as [s|s| |s m e] eqn:E.
  - assert (Ha : a = (if s then neg_zero else 0)).
    { apply Prim2SF_inj. rewrite E. now destruct s. }
    rewrite Ha. now destruct s.
  - assert (Ha : a = (if s then neg_infinity else infinity)).
    { apply Prim2SF_inj. rewrite E. now destruct s. }
    rewrite Ha. now destruct s.
  - assert (Ha : a = nan) by (apply Prim2SF_inj; now rewrite E).
    rewrite Ha. reflexivity.
  - rewrite !(add_zero_finite a s m e E), (div_one_finite a s m e E),
      (sub_self_finite a s m e E).
    reflexivity.
Qed.

Lemma np_var_short (a : list float) :
  (length a < 2)%nat -> np_var a 1 = nan.
Proof.
  intros Hn. destruct a as [|x [|y a]]; [reflexivity| |simpl in Hn; lia].
  apply np_var_singleton.
Qed.

Lemma div_nan_l (y : float) : nan / y = nan.
Proof.
  apply Prim2SF_inj. rewrite div_spec. change (Prim2SF nan) with S754_nan.
  reflexivity.
Qed.

Lemma div_nan_r (x : float) : x / nan = nan.
Proof.
  apply Prim2SF_inj. rewrite div_spec. change (Prim2SF nan) with S754_nan.
  destruct (Prim2SF x); reflexivity.
Qed.

(** A sample of fewer than two observations is not rejected: its variance
    with [ddof = 1] is NaN, and the call returns the F statistic NaN and
    [1 - stats.f.cdf(nan, n1 - 1, n2 - 1)]. *)
Theorem two_sample_variance_f_test_short_sample
    (stats : scipy_stats float) (sample1 sample2 : list float) :
  (length sample1 < 2)%nat \/ (length sample2 < 2)%nat ->
  two_sample_variance_f_test stats sample1 sample2
  = Returns (nan, 1 - f_cdf stats nan (len sample1 - 1) (len sample2 - 1)).
Proof.
  intros Hshort. unfold two_sample_variance_f_test. cbn [div binary64].
  assert (HF : np_var sample1 1 / np_var sample2 1 = nan).
  { destruct Hshort as [H1|H2].
    - rewrite (np_var_short sample1 H1). apply div_nan_l.
    - rewrite (np_var_short sample2 H2). apply div_nan_r. }
  rewrite HF. reflexivity.
Qed.

(** A number divided by itself is 1 when it is finite and not zero, and
    NaN otherwise. *)
Lemma div_self_value (x : float) :
  x / x = if is_finite x && negb (x =? 0) then 1 else nan.
Proof.
  apply Prim2SF_inj. rewrite div_spec.
  unfold is_finite, is_nan, is_infinity.
  rewrite !eqb_spec, abs_spec.
  change (Prim2SF 0) with (S754_zero false).
  change (Prim2SF infinity) with (S754_infinity false).
  destruct (Prim2SF x) as [s|s| |s m e] eqn:E;
    try (destruct s; reflexivity); try reflexivity.
  rewrite SFdiv_self. unfold SFeqb at 1.
  rewrite SFcompare_refl by discriminate.
  destruct s; reflexivity.
Qed.

(** Tested against itself, a sample has the F statistic 1 when its
    variance is a finite number other than zero, and NaN otherwise. *)
Theorem two_sample_variance_f_test_same_sample
    (stats : scipy_stats float) (sample : list float) :
  exists p : float,
    two_sample_variance_f_test stats sample sample
    = Returns (if is_finite (np_var sample 1) && negb (np_var sample 1 =? 0)
               then 1 else nan, p).
Proof.
  eexists. unfold two_sample_variance_f_test. cbn [div binary64].
  rewrite div_self_value. reflexivity.
Qed.
End ShortSamples.

(** ** Observations that are not finite

    An infinity or a NaN in a sample makes the sum, and with it the mean,
    an infinity of the same sign or a NaN; the deviation of that
    observation is then NaN, and so are the sum of squares and the
    variance. *)

Section Absorbing.
Local Open Scope float_scope.
Variable P : float -> Prop.
Hypothesis P_absorbing : absorbing P.

Lemma absorb_l (x y : float) : P x -> P (x + y).
Proof. intros H. apply (P_absorbing x y H). Qed.

Lemma absorb_r (x y : float) : P y -> P (x + y).
Proof. intros H. apply (P_absorbing y x H). Qed.

Lemma sequential_sum_absorbing (a : list float) :
  forall res : float,
    P res \/ Exists P a -> P (sequential_sum res a).
Proof.
  unfold sequential_sum.
  induction a as [|v a IH]; intros res H; cbn [fold_left].
  - destruct H as [H|H]; [exact H|inversion H].
  - apply IH. destruct H as [H|H].
    + left. now apply absorb_l.
    + apply Exists_cons in H. destruct H as [H|H].
      * left. now apply absorb_r.
      * now right.
Qed.

Lemma unrolled_sum_absorbing (n : nat) :
  forall (a : list float) (r0 r1 r2 r3 r4 r5 r6 r7 : float),
    (length a <= n)%nat ->
    Exists P (r0 :: r1 :: r2 :: r3 :: r4 :: r5 :: r6 :: r7 :: a) ->
    P (unrolled_sum r0 r1 r2 r3 r4 r5 r6 r7 a).
Proof.
  induction n as [|n IH]; intros a r0 r1 r2 r3 r4 r5 r6 r7 Hn Hex.
  - destruct a; [|simpl in Hn; lia].
    cbn [unrolled_sum]. apply sequential_sum_absorbing.
    repeat rewrite Exists_cons in Hex. rewrite Exists_nil in Hex.
    left. cbn [add binary64].
    intuition auto using absorb_l, absorb_r.
  - destruct a as [|b0 [|b1 [|b2 [|b3 [|b4 [|b5 [|b6 [|b7 rest]]]]]]]];
      cbn [unrolled_sum].
    9:{ apply IH; [simpl in Hn; lia|].
        repeat rewrite Exists_cons in Hex. repeat rewrite Exists_cons.
        cbn [add binary64].
        intuition auto using absorb_l, absorb_r. }
    all: apply sequential_sum_absorbing;
      repeat rewrite Exists_cons in Hex; repeat rewrite Exists_cons;
      rewrite Exists_nil in *; cbn [add binary64];
      intuition auto 6 using absorb_l, absorb_r.
Qed.

Lemma pairwise_sum_absorbing (fuel : nat) :
  forall a : list float, Exists P a -> P (pairwise_sum fuel a).
Proof.
  assert (Hseq : forall a : list float,
             Exists P a -> P (sequential_sum zero a)).
  { intros a Ha. apply sequential_sum_absorbing. now right. }
  induction fuel as [|fuel IH]; intros a Ha; cbn [pairwise_sum];
    destruct (length a <? 8)%nat; try (apply Hseq; exact Ha);
    destruct (length a <=? PW_BLOCKSIZE)%nat;
    try (destruct a as [|b0 [|b1 [|b2 [|b3 [|b4 [|b5 [|b6 [|b7 rest]]]]]]]];
         try (apply Hseq; exact Ha);
         apply (unrolled_sum_absorbing (length rest)); [lia|exact Ha]).
  - apply Hseq; exact Ha.
  - set (n2 := (length a / 2 - (length a / 2) mod 8)%nat).
    rewrite <- (firstn_skipn n2 a) in Ha.
    apply Exists_app in Ha. destruct Ha as [Ha|Ha].
    + apply absorb_l, IH, Ha.
    + apply absorb_r, IH, Ha.
Qed.

Lemma add_reduce_absorbing (a : list float) :
  Exists P a -> P (add_reduce a).
Proof.
  intros Ha. unfold add_reduce. apply absorb_r, pairwise_sum_absorbing, Ha.
Qed.
End Absorbing.

Section NonFinite.
Local Open Scope float_scope.

Lemma nan_absorbing : absorbing (fun x => x = nan).
Proof.
  intros x y ->. split; apply Prim2SF_inj; rewrite add_spec;
    change (Prim2SF nan) with S754_nan; [reflexivity|].
  destruct (Prim2SF y); reflexivity.
Qed.

Lemma nan_or_infinity_absorbing (s : bool) : absorbing (nan_or_infinity s).
Proof.
  intros x y [->|Hx].
  - destruct (nan_absorbing nan y eq_refl) as [-> ->]. split; now left.
  - unfold nan_or_infinity.
    assert (H : forall z, Prim2SF z = S754_nan -> z = nan).
    { intros z Hz. apply Prim2SF_inj. now rewrite Hz. }
    rewrite !add_spec, Hx.
    destruct (Prim2SF y) as [sy|sy| |sy my ey] eqn:Ey; split;
      try (right; reflexivity);
      try (destruct s, sy; first [right; reflexivity
                                 |left; apply H; rewrite add_spec, ?Hx, ?Ey;
                                  reflexivity]);
      left; apply H; rewrite add_spec, ?Hx, ?Ey; reflexivity.
Qed.

(** A number that is not finite is a NaN or an infinity. *)
Lemma not_finite_inv (x : float) :
  is_finite x = false -> exists s, nan_or_infinity s x.
Proof.
  unfold is_finite, is_nan, is_infinity.
  rewrite !eqb_spec, abs_spec.
  change (Prim2SF infinity) with (S754_infinity false).
  destruct (Prim2SF x) as [s|s| |s m e] eqn:E; intros H.
  - destruct s; discriminate.
  - exists s. now right.
  - exists false. left. apply Prim2SF_inj. now rewrite E.
  - unfold SFeqb at 1 in H. rewrite SFcompare_refl in H by discriminate.
    discriminate.
Qed.
End NonFinite.

Section NonFiniteVariance.
Local Open Scope float_scope.

Lemma div_nan_or_infinity (s : bool) (x c : float) :
  nan_or_infinity s x -> sign_clear c = true -> nan_or_infinity s (x / c).
Proof.
  intros [->|Hx] Hc.
  - left. apply div_nan_l.
  - unfold nan_or_infinity, sign_clear in *. rewrite div_spec, Hx.
    assert (H : forall z, Prim2SF z = S754_nan -> z = nan).
    { intros z Hz. apply Prim2SF_inj. now rewrite Hz. }
    destruct (Prim2SF c) as [sc|sc| |sc mc ec] eqn:Ec; cbn in Hc;
      try (apply negb_true_iff in Hc; subst sc);
      try (right; cbn; now rewrite xorb_false_r);
      left; apply H; rewrite div_spec, Hx, Ec; reflexivity.
Qed.

Lemma sub_nan_or_infinity (s : bool) (x y : float) :
  nan_or_infinity s x -> nan_or_infinity s y -> x - y = nan.
Proof.
  intros Hx Hy. apply Prim2SF_inj. rewrite sub_spec.
  change (Prim2SF nan) with S754_nan.
  destruct Hx as [->|Hx], Hy as [->|Hy];
    change (Prim2SF nan) with S754_nan; rewrite ?Hx, ?Hy;
    try reflexivity; destruct s; reflexivity.
Qed.

(** A sample that holds an infinity or a NaN has the variance NaN. *)
Lemma np_var_not_finite (a : list float) (ddof : Z) :
  Exists (fun v => is_finite v = false) a -> np_var a ddof = nan.
Proof.
  intros Hex. apply Exists_exists in Hex. destruct Hex as [v [Hin Hv]].
  destruct (not_finite_inv v Hv) as [s Hs].
  unfold np_var.
  set (arrmean := div (add_reduce a) (of_count (Z.of_nat (length a)))).
  assert (Hmean : nan_or_infinity s arrmean).
  { apply div_nan_or_infinity; [|apply of_count_sign_clear].
    apply (add_reduce_absorbing _ (nan_or_infinity_absorbing s)).
    apply Exists_exists. now exists v. }
  assert (Hsum : add_reduce
                   (map (fun d => mul d d) (map (fun x => sub x arrmean) a))
                 = nan).
  { apply (add_reduce_absorbing _ nan_absorbing).
    apply Exists_exists. exists nan. split; [|reflexivity].
    apply in_map_iff. exists nan. split; [reflexivity|].
    apply in_map_iff. exists v. split; [|exact Hin].
    apply (sub_nan_or_infinity s); assumption. }
  rewrite Hsum. apply div_nan_l.
Qed.

(** A sample that holds an infinity or a NaN is not rejected: the call
    returns the F statistic NaN and
    [1 - stats.f.cdf(nan, n1 - 1, n2 - 1)]. *)
Theorem two_sample_variance_f_test_not_finite
    (stats : scipy_stats float) (sample1 sample2 : list float) :
  Exists (fun v => is_finite v = false) sample1
  \/ Exists (fun v => is_finite v = false) sample2 ->
  two_sample_variance_f_test stats sample1 sample2
  = Returns (nan, 1 - f_cdf stats nan (len sample1 - 1) (len sample2 - 1)).
Proof.
  intros Hex. unfold two_sample_variance_f_test. cbn [div binary64].
  assert (HF : np_var sample1 1 / np_var sample2 1 = nan).
  { destruct Hex as [H1|H2].
    - rewrite (np_var_not_finite sample1 1 H1). apply div_nan_l.
    - rewrite (np_var_not_finite sample2 1 H2). apply div_nan_r. }
  rewrite HF. reflexivity.
Qed.
End NonFiniteVariance.

(** ** The further properties on concrete samples *)

Lemma two_sample_variance_f_test_zero_variance_value_witness :
  exists p : float,
    two_sample_variance_f_test (stand_in uniform_cdf) [1; 2]%float [3; 3]%float
    = Returns (if is_nan (np_var [1; 2]%float 1)
                  || (np_var [1; 2]%float 1 =? 0)%float
               then nan else infinity, p).
Proof.
  apply (two_sample_variance_f_test_zero_variance_value
           (stand_in uniform_cdf) [1; 2]%float [3; 3]%float).
  vm_compute. reflexivity.
Defined.

Lemma two_sample_variance_f_test_short_sample_witness :
  two_sample_variance_f_test (stand_in uniform_cdf) [5]%float [1; 2; 3]%float
  = Returns (nan,
             (1 - uniform_cdf nan (len [5]%float - 1)
                    (len [1; 2; 3]%float - 1))%float).
Proof.
  apply (two_sample_variance_f_test_short_sample
           (stand_in uniform_cdf) [5]%float [1; 2; 3]%float).
  left. simpl. lia.
Defined.

Lemma two_sample_variance_f_test_not_finite_witness :
  two_sample_variance_f_test (stand_in uniform_cdf)
    [1; infinity]%float [1; 2]%float
  = Returns (nan,
             (1 - uniform_cdf nan (len [1; infinity]%float - 1)
                    (len [1; 2]%float - 1))%float).
Proof.
  apply (two_sample_variance_f_test_not_finite
           (stand_in uniform_cdf) [1; infinity]%float [1; 2]%float).
  left. apply Exists_cons_tl, Exists_cons_hd. reflexivity.
Defined.

(** ** Rounding to nearest, in integers

    What [binary_round_aux] computes, read on integers: the shifts keep
    track of where the exact quotient lies ([inbetween]), and the number
    returned is within half a unit in its last place of it. *)

Section Nearest.
Local Open Scope Z_scope.

Lemma shr_record_of_loc_inv (m : Z) (l : location) :
  shr_m (shr_record_of_loc m l) = m
  /\ loc_of_shr_record (shr_record_of_loc m l) = l.
Proof.
  destruct l as [|[| |]]; split; reflexivity.
Qed.

Lemma shr_1_inbetween (N D : Z) (mrs : shr_record) :
  0 < D -> 0 <= shr_m mrs ->
  inbetween N D (shr_m mrs) (loc_of_shr_record mrs) ->
  inbetween N (2 * D) (shr_m (shr_1 mrs)) (loc_of_shr_record (shr_1 mrs)).
Proof.
  destruct mrs as [m r s]. cbn [shr_m]. intros HD Hm.
  destruct m as [|[p|p|]|]; try lia;
    destruct r, s; cbn [shr_m shr_1 loc_of_shr_record orb inbetween]; lia.
Qed.

Lemma iter_shr_1_inbetween (N : Z) (p : positive) :
  forall (D : Z) (mrs : shr_record),
    0 < D -> 0 <= shr_m mrs ->
    inbetween N D (shr_m mrs) (loc_of_shr_record mrs) ->
    inbetween N (2 ^ Zpos p * D) (shr_m (iter_pos shr_1 p mrs))
              (loc_of_shr_record (iter_pos shr_1 p mrs)).
Proof.
  induction p as [p IH|p IH|]; intros D mrs HD Hm Hin; cbn [iter_pos];
    try assert (Hk : 0 < 2 ^ Zpos p) by (apply Z.pow_pos_nonneg; lia).
  - replace (2 ^ Zpos p~1 * D) with (2 ^ Zpos p * (2 ^ Zpos p * (2 * D))).
    + apply IH; [nia|apply iter_shr_1_spec, shr_1_spec, Hm|].
      apply IH; [lia|apply shr_1_spec, Hm|].
      apply shr_1_inbetween; assumption.
    + replace (Zpos p~1) with (Zpos p + Zpos p + 1) by lia.
      rewrite !Z.pow_add_r, Z.pow_1_r by lia. ring.
  - replace (2 ^ Zpos p~0 * D) with (2 ^ Zpos p * (2 ^ Zpos p * D)).
    + apply IH; [nia|apply iter_shr_1_spec, Hm|]. apply IH; assumption.
    + replace (Zpos p~0) with (Zpos p + Zpos p) by lia.
      rewrite !Z.pow_add_r by lia. ring.
  - rewrite Z.pow_1_r. apply shr_1_inbetween; assumption.
Qed.

Lemma round_nearest_even_inbetween (N D m : Z) (l : location) :
  0 < D -> inbetween N D m l ->
  - D <= 2 * (N - round_nearest_even m l * D) <= D.
Proof.
  intros HD. destruct l as [|[| |]]; cbn [inbetween round_nearest_even].
  - intros ->. lia.
  - destruct (Z.even m); lia.
  - lia.
  - lia.
Qed.


Lemma shr_fexp_inbetween (N D m e : Z) (l : location) :
  0 < D -> 0 <= m -> inbetween N D m l ->
  let '(mrs, e1) := shr_fexp prec emax m e l in
  e1 = Z.max e (fexp prec emax (Zdigits2 m + e))
  /\ 0 <= shr_m mrs
  /\ 2 ^ (e1 - e) * shr_m mrs <= m
  /\ inbetween N (2 ^ (e1 - e) * D) (shr_m mrs) (loc_of_shr_record mrs).
Proof.
  intros HD Hm Hin. unfold shr_fexp, shr.
  destruct (shr_record_of_loc_inv m l) as [Em El].
  destruct (fexp prec emax (Zdigits2 m + e) - e) as [|p|p] eqn:Ek.
  - rewrite Em, El. split; [lia|]. rewrite Z.sub_diag, Z.pow_0_r.
    repeat split; try lia. now rewrite Z.mul_1_l.
  - replace (e + Zpos p - e) with (Zpos p) by lia.
    split; [lia|].
    destruct (iter_shr_1_spec p (shr_record_of_loc m l)) as [H0 Hle];
      [rewrite Em; exact Hm|]. rewrite Em in Hle.
    repeat split; try assumption.
    apply iter_shr_1_inbetween; rewrite ?Em, ?El; assumption.
  - rewrite Em, El. split; [lia|]. rewrite Z.sub_diag, Z.pow_0_r.
    repeat split; try lia. now rewrite Z.mul_1_l.
Qed.

Lemma shifted_short (m e e1 ms : Z) :
  0 <= m -> e1 = Z.max e (fexp prec emax (Zdigits2 m + e)) ->
  0 <= ms -> 2 ^ (e1 - e) * ms <= m ->
  ms < 2 ^ 53 /\ -1074 <= e1.
Proof.
  intros Hm -> Hms Hle. rewrite fexp_binary64 in *. split; [|lia].
  destruct m as [|p|p]; [| |lia].
  - assert (0 < 2 ^ (Z.max e (Z.max (Zdigits2 0 + e - 53) (-1074)) - e))
      by (apply Z.pow_pos_nonneg; lia).
    assert (ms = 0) by nia. subst ms. reflexivity.
  - cbn [Zdigits2] in *. set (d := Zpos (digits2_pos p)) in *.
    destruct (digits2_pos_bounds p) as [_ Hhi]. fold d in Hhi.
    assert (Hd : 0 < d) by (unfold d; lia).
    set (k := Z.max e (Z.max (d + e - 53) (-1074)) - e) in *.
    assert (Hk : 0 <= k) by lia.
    destruct (Z_le_gt_dec d 53) as [Hs|Hl].
    + assert (2 ^ d <= 2 ^ 53) by (apply Z.pow_le_mono_r; lia).
      assert (1 <= 2 ^ k) by (apply (Z.pow_le_mono_r 2 0 k); lia).
      nia.
    + assert (Hk' : d - 53 <= k) by lia.
      assert (H1 : 2 ^ (d - 53) <= 2 ^ k) by (apply Z.pow_le_mono_r; lia).
      assert (H2 : 2 ^ d = 2 ^ (d - 53) * 2 ^ 53).
      { rewrite <- Z.pow_add_r by lia. f_equal. lia. }
      assert (H3 : 0 < 2 ^ (d - 53)) by (apply Z.pow_pos_nonneg; lia).
      apply Z.nle_gt. intros Hc.
      assert (2 ^ (d - 53) * 2 ^ 53 <= 2 ^ k * ms).
      { apply Z.mul_le_mono_nonneg; lia. }
      lia.
Qed.

Lemma shr_fexp_carry (M e1 : Z) :
  0 <= M <= 2 ^ 53 -> -1074 <= e1 ->
  exists M' f : Z,
    shr_fexp prec emax M e1 loc_Exact = (Build_shr_record M' false false, f)
    /\ 0 <= M' < 2 ^ 53 /\ e1 <= f <= e1 + 1 /\ M = M' * 2 ^ (f - e1).
Proof.
  intros [H0 Hle] He.
  destruct (Z.eq_dec M (2 ^ 53)) as [->|Hne].
  - exists (2 ^ 52), (e1 + 1).
    unfold shr_fexp. cbn [shr_record_of_loc].
    change (Zdigits2 (2 ^ 53)) with 54. rewrite fexp_binary64.
    replace (Z.max (54 + e1 - 53) (-1074) - e1) with 1 by lia.
    split; [reflexivity|]. split; [split; [discriminate|reflexivity]|].
    split; [lia|]. replace (e1 + 1 - e1) with 1 by lia. reflexivity.
  - exists M, e1.
    assert (Hlt : M < 2 ^ 53) by lia.
    pose proof (Zdigits2_lt M 53 H0 ltac:(lia) Hlt) as Hd.
    unfold shr_fexp, shr. cbn [shr_record_of_loc]. rewrite fexp_binary64.
    rewrite Z.sub_diag, Z.pow_0_r, Z.mul_1_r.
    destruct (Z.max (Zdigits2 M + e1 - 53) (-1074) - e1) as [|p|p] eqn:Ek;
      try lia; (split; [reflexivity|]); lia.
Qed.

Lemma binary_round_aux_nearest (s : bool) (N D m e : Z) (l : location) :
  0 < D -> 0 <= m -> inbetween N D m l ->
  exists M f : Z,
    binary_round_aux prec emax s m e l = finish s M f
    /\ 0 <= M < 2 ^ 53
    /\ Z.max e (fexp prec emax (Zdigits2 m + e)) <= f
       <= Z.max e (fexp prec emax (Zdigits2 m + e)) + 1
    /\ - (2 ^ (f - e) * D) <= 2 * (N - M * (2 ^ (f - e) * D))
       <= 2 ^ (f - e) * D.
Proof.
  intros HD Hm Hin. unfold binary_round_aux.
  pose proof (shr_fexp_inbetween N D m e l HD Hm Hin) as S1.
  destruct (shr_fexp prec emax m e l) as [mrs1 e1].
  destruct S1 as (E1 & H0 & Hle & Hin1).
  destruct (shifted_short m e e1 (shr_m mrs1) Hm E1 H0 Hle) as [Hs He1].
  assert (HD1 : 0 < 2 ^ (e1 - e) * D).
  { apply Z.mul_pos_pos; [apply Z.pow_pos_nonneg; lia|exact HD]. }
  pose proof (round_nearest_even_inbetween N _ _ _ HD1 Hin1) as Hr.
  pose proof (round_nearest_even_bounds (shr_m mrs1) (loc_of_shr_record mrs1))
    as Hb.
  set (M1 := round_nearest_even (shr_m mrs1) (loc_of_shr_record mrs1)) in *.
  destruct (shr_fexp_carry M1 e1 ltac:(lia) He1) as (M & f & -> & HM & Hf & EM).
  exists M, f. cbn [shr_m]. split; [reflexivity|].
  split; [exact HM|]. split; [lia|].
  assert (E2 : 2 ^ (f - e) = 2 ^ (f - e1) * 2 ^ (e1 - e)).
  { rewrite <- Z.pow_add_r by lia. f_equal. lia. }
  assert (H1 : 1 <= 2 ^ (f - e1)) by (apply (Z.pow_le_mono_r 2 0); lia).
  rewrite E2. set (D1 := 2 ^ (e1 - e) * D) in *.
  replace (M * (2 ^ (f - e1) * 2 ^ (e1 - e) * D)) with (M1 * D1)
    by (rewrite EM; unfold D1; ring).
  replace (2 ^ (f - e1) * 2 ^ (e1 - e) * D) with (2 ^ (f - e1) * D1)
    by (unfold D1; ring).
  nia.
Qed.

End Nearest.

(** ** Quotients

    The division of two finite positive numbers rounds their exact
    quotient to nearest. *)

Section Quotients.
Local Open Scope Z_scope.

Lemma new_location_inbetween (N D q r : Z) :
  0 < D -> N = D * q + r -> 0 <= r < D ->
  inbetween N D q (new_location D r).
Proof.
  intros HD -> Hr. unfold new_location.
  destruct (Z.even D) eqn:Ev;
    unfold new_location_even, new_location_odd;
    destruct (Z.eqb_spec r 0) as [E0|Hr0];
    try (subst r; cbn [inbetween]; ring).
  - destruct (Z.compare_spec (2 * r) D); cbn [inbetween]; nia.
  - assert (Hodd : Z.odd D = true) by (rewrite <- Z.negb_even, Ev; reflexivity).
    apply Z.odd_spec in Hodd. destruct Hodd as [k Ek].
    destruct (Z.compare_spec (2 * r + 1) D); cbn [inbetween]; nia.
Qed.

Lemma SFdiv_core_binary_inbetween (m1 m2 : positive) (e1 e2 : Z) :
  let '(q, e', l) := SFdiv_core_binary prec emax (Zpos m1) e1 (Zpos m2) e2 in
  e' = Z.min (fexp prec emax (Zdigits2 (Zpos m1) + e1 - (Zdigits2 (Zpos m2) + e2)))
             (e1 - e2)
  /\ 0 <= q
  /\ inbetween (Zpos m1 * 2 ^ (e1 - e2 - e')) (Zpos m2) q l.
Proof.
  unfold SFdiv_core_binary.
  set (e' := Z.min _ (e1 - e2)).
  assert (He : e' <= e1 - e2) by (unfold e'; lia).
  set (m' := match e1 - e2 - e' with
             | 0 => Zpos m1
             | Zpos _ => Z.shiftl (Zpos m1) (e1 - e2 - e')
             | Zneg _ => 0
             end).
  assert (Em : m' = Zpos m1 * 2 ^ (e1 - e2 - e')).
  { unfold m'. destruct (e1 - e2 - e') as [|p|p] eqn:Es; [| |lia].
    - rewrite Z.pow_0_r. lia.
    - apply Z.shiftl_mul_pow2. lia. }
  clearbody m'. 
  pose proof (Z_div_mod m' (Zpos m2) eq_refl) as Hdiv.
  destruct (Z.div_eucl m' (Zpos m2)) as [q r].
  destruct Hdiv as [Eq Hr].
  assert (H0 : 0 <= m').
  { rewrite Em. apply Z.mul_nonneg_nonneg; [lia|apply Z.pow_nonneg; lia]. }
  split; [reflexivity|]. split; [nia|].
  rewrite <- Em. apply new_location_inbetween; [lia|exact Eq|exact Hr].
Qed.

Lemma finish_finite (s' : bool) (M' f' : Z) (s : bool) (M : positive) (f : Z) :
  finish s' M' f' = S754_finite s M f -> M' = Zpos M /\ f' = f.
Proof.
  unfold finish. destruct M' as [|p|p]; try discriminate.
  destruct (f' <=? emax - prec); try discriminate.
  intros E. inversion E. split; reflexivity.
Qed.

(** The quotient of two finite positive numbers, when it is finite and not
    zero, is within half a unit in its last place of the exact quotient. *)
Lemma SFdiv_nearest (m1 m2 M : positive) (e1 e2 f : Z) :
  SFdiv prec emax (S754_finite false m1 e1) (S754_finite false m2 e2)
  = S754_finite false M f ->
  exists s j : Z,
    0 <= s /\ 0 <= j /\ s - j = e1 - e2 - f
    /\ - (2 ^ j * Zpos m2)
       <= 2 * (Zpos m1 * 2 ^ s - Zpos M * (2 ^ j * Zpos m2))
       <= 2 ^ j * Zpos m2.
Proof.
  cbn [SFdiv xorb].
  pose proof (SFdiv_core_binary_inbetween m1 m2 e1 e2) as Hc.
  destruct (SFdiv_core_binary prec emax (Zpos m1) e1 (Zpos m2) e2)
    as [[q e'] l].
  destruct Hc as (He & Hq & Hin).
  assert (He' : e' <= e1 - e2) by lia.
  destruct (binary_round_aux_nearest false _ _ q e' l (eq_refl : 0 < Zpos m2) Hq Hin)
    as (M' & f' & -> & HM & Hf & Hb).
  intros E. apply finish_finite in E. destruct E as [-> ->].
  exists (e1 - e2 - e'), (f - e'). repeat split; lia.
Qed.

End Quotients.

(** ** The product of the two F statistics

    Two quotients [x / y] and [y / x] that are normal numbers are each
    within [2 ^ -53], relatively, of the exact quotients, whose product is
    1; the rounded product of the two is then one of the neighbours of 1. *)

Section Reciprocals.
Local Open Scope Z_scope.

(** Half a unit in the last place of a normal number is at most [2 ^ -53]
    times the number. *)
Lemma half_ulp_relative (a M T : Z) :
  2 ^ 52 <= M -> 0 < T ->
  - T <= 2 * (a - M * T) <= T ->
  (2 ^ 53 - 1) * (M * T) <= 2 ^ 53 * a <= (2 ^ 53 + 1) * (M * T).
Proof.
  intros HM HT Hb.
  assert (H : 2 ^ 52 * T <= M * T) by (apply Z.mul_le_mono_nonneg_r; lia).
  change (2 ^ 53) with 9007199254740992.
  change (2 ^ 52) with 4503599627370496 in H.
  set (A := M * T) in *. clearbody A. lia.
Qed.

Lemma product_band (m1 m2 M1 M2 s1 j1 s2 j2 : Z) :
  0 < m1 -> 0 < m2 -> 2 ^ 52 <= M1 < 2 ^ 53 -> 2 ^ 52 <= M2 < 2 ^ 53 ->
  0 <= s1 -> 0 <= j1 -> 0 <= s2 -> 0 <= j2 ->
  - (2 ^ j1 * m2) <= 2 * (m1 * 2 ^ s1 - M1 * (2 ^ j1 * m2)) <= 2 ^ j1 * m2 ->
  - (2 ^ j2 * m1) <= 2 * (m2 * 2 ^ s2 - M2 * (2 ^ j2 * m1)) <= 2 ^ j2 * m1 ->
  let E := s1 + s2 - (j1 + j2) in
  104 <= E <= 106
  /\ (2 ^ 53 - 1) * (2 ^ 53 - 1) * (M1 * M2) <= 2 ^ 53 * 2 ^ 53 * 2 ^ E
     <= (2 ^ 53 + 1) * (2 ^ 53 + 1) * (M1 * M2).
Proof.
  intros Hm1 Hm2 HM1 HM2 Hs1 Hj1 Hs2 Hj2 R1 R2 E.
  assert (HT1 : 0 < 2 ^ j1 * m2).
  { apply Z.mul_pos_pos; [apply Z.pow_pos_nonneg; lia|lia]. }
  assert (HT2 : 0 < 2 ^ j2 * m1).
  { apply Z.mul_pos_pos; [apply Z.pow_pos_nonneg; lia|lia]. }
  pose proof (half_ulp_relative _ _ _ (proj1 HM1) HT1 R1) as B1.
  pose proof (half_ulp_relative _ _ _ (proj1 HM2) HT2 R2) as B2.
  set (U := 2 ^ 53) in *.
  assert (HU : U = 9007199254740992) by reflexivity.
  set (X := 2 ^ j1 * 2 ^ j2).
  set (Y := 2 ^ s1 * 2 ^ s2).
  set (P := M1 * M2).
  assert (HX : 0 < X).
  { apply Z.mul_pos_pos; apply Z.pow_pos_nonneg; lia. }
  assert (HP : 2 ^ 104 <= P < 2 ^ 106).
  { unfold P. change (2 ^ 104) with (2 ^ 52 * 2 ^ 52).
    change (2 ^ 106) with (2 ^ 53 * 2 ^ 53). split.
    - apply Z.mul_le_mono_nonneg; lia.
    - apply Z.mul_lt_mono_nonneg; lia. }
  assert (Hmm : 0 < m1 * m2) by (apply Z.mul_pos_pos; lia).
  (* the two bounds multiplied, the mantissas cancelled *)
  assert (Lo : (U - 1) * (U - 1) * (P * X) <= U * U * Y).
  { apply (Z.mul_le_mono_pos_r _ _ (m1 * m2) Hmm).
    replace ((U - 1) * (U - 1) * (P * X) * (m1 * m2))
      with (((U - 1) * (M1 * (2 ^ j1 * m2))) * ((U - 1) * (M2 * (2 ^ j2 * m1))))
      by (unfold P, X; ring).
    replace (U * U * Y * (m1 * m2))
      with ((U * (m1 * 2 ^ s1)) * (U * (m2 * 2 ^ s2))) by (unfold Y; ring).
    assert (0 <= M1 * (2 ^ j1 * m2)) by (apply Z.mul_nonneg_nonneg; lia).
    assert (0 <= M2 * (2 ^ j2 * m1)) by (apply Z.mul_nonneg_nonneg; lia).
    apply Z.mul_le_mono_nonneg; lia. }
  assert (Hi : U * U * Y <= (U + 1) * (U + 1) * (P * X)).
  { apply (Z.mul_le_mono_pos_r _ _ (m1 * m2) Hmm).
    replace ((U + 1) * (U + 1) * (P * X) * (m1 * m2))
      with (((U + 1) * (M1 * (2 ^ j1 * m2))) * ((U + 1) * (M2 * (2 ^ j2 * m1))))
      by (unfold P, X; ring).
    replace (U * U * Y * (m1 * m2))
      with ((U * (m1 * 2 ^ s1)) * (U * (m2 * 2 ^ s2))) by (unfold Y; ring).
    assert (0 <= m1 * 2 ^ s1).
    { apply Z.mul_nonneg_nonneg; [lia|apply Z.pow_nonneg; lia]. }
    assert (0 <= m2 * 2 ^ s2).
    { apply Z.mul_nonneg_nonneg; [lia|apply Z.pow_nonneg; lia]. }
    apply Z.mul_le_mono_nonneg; lia. }
  assert (EX : X = 2 ^ (j1 + j2)) by (unfold X; rewrite Z.pow_add_r; lia).
  assert (EY : Y = 2 ^ (s1 + s2)) by (unfold Y; rewrite Z.pow_add_r; lia).
  assert (HPX : 2 ^ 104 * X <= P * X < 2 ^ 106 * X).
  { split.
    - apply Z.mul_le_mono_nonneg_r; lia.
    - apply Z.mul_lt_mono_pos_r; lia. }
  change (2 ^ 104) with 20282409603651670423947251286016 in HPX.
  change (2 ^ 106) with 81129638414606681695789005144064 in HPX.
  assert (HE : 104 <= E <= 106).
  { split.
    - apply Z.nlt_ge. intros Hc.
      assert (Y <= 2 ^ 103 * X).
      { rewrite EX, EY, <- Z.pow_add_r by lia.
        apply Z.pow_le_mono_r; unfold E in Hc; lia. }
      change (2 ^ 103) with 10141204801825835211973625643008 in *.
      set (PX := P * X) in *. clearbody PX. lia.
    - apply Z.nlt_ge. intros Hc.
      assert (2 ^ 107 * X <= Y).
      { rewrite EX, EY, <- Z.pow_add_r by lia.
        apply Z.pow_le_mono_r; unfold E in Hc; lia. }
      change (2 ^ 107) with 162259276829213363391578010288128 in *.
      set (PX := P * X) in *. clearbody PX. lia. }
  split; [exact HE|].
  assert (EYX : Y = 2 ^ E * X).
  { rewrite EX, EY, <- Z.pow_add_r by lia. f_equal. unfold E. lia. }
  rewrite EYX in Lo, Hi.
  split.
  - apply (Z.mul_le_mono_pos_r _ _ X HX).
    replace ((U - 1) * (U - 1) * P * X) with ((U - 1) * (U - 1) * (P * X))
      by ring.
    replace (U * U * 2 ^ E * X) with (U * U * (2 ^ E * X)) by ring.
    exact Lo.
  - apply (Z.mul_le_mono_pos_r _ _ X HX).
    replace ((U + 1) * (U + 1) * P * X) with ((U + 1) * (U + 1) * (P * X))
      by ring.
    replace (U * U * 2 ^ E * X) with (U * U * (2 ^ E * X)) by ring.
    exact Hi.
Qed.

End Reciprocals.

Section NearOne.
Local Open Scope Z_scope.

Lemma canonical_normal (m : positive) (e : Z) :
  bounded prec emax m e = true -> -1074 < e -> 2 ^ 52 <= Zpos m.
Proof.
  unfold bounded, canonical_mantissa. intros Hb He.
  apply andb_prop in Hb. destruct Hb as [Hc _].
  apply Z.eqb_eq in Hc. rewrite fexp_binary64 in Hc.
  destruct (digits2_pos_bounds m) as [Hlo _].
  replace (Zpos (digits2_pos m) - 1) with 52 in Hlo by lia. exact Hlo.
Qed.

Lemma normal_inv (x : float) :
  normal x = true ->
  exists (m : positive) (e : Z),
    Prim2SF x = S754_finite false m e /\ 2 ^ 52 <= Zpos m < 2 ^ 53.
Proof.
  unfold normal. rewrite leb_spec, ltb_spec. intros H.
  apply andb_prop in H. destruct H as [Hlo Hhi].
  pose proof (Prim2SF_valid x) as Hv.
  change (Prim2SF 0x1p-1022) with (S754_finite false 4503599627370496 (-1074))
    in Hlo.
  change (Prim2SF infinity) with (S754_infinity false) in Hhi.
  destruct (Prim2SF x) as [s|s| |s m e]; try discriminate.
  - destruct s; discriminate.
  - destruct s; [discriminate|].
    exists m, e. split; [reflexivity|].
    cbn [valid_binary] in Hv. split; [|exact (bounded_digits m e Hv)].
    unfold SFleb in Hlo. cbn [SFcompare] in Hlo.
    destruct (Z.compare_spec (-1074) e) as [Ee|Ee|Ee]; [| |discriminate].
    + rewrite Pos.compare_cont_spec in Hlo. cbn [Pos.switch_Eq] in Hlo.
      change (2 ^ 52) with (Zpos 4503599627370496).
      destruct (Pos.compare_spec 4503599627370496 m) as [E|E|E];
        try discriminate.
      * subst m. apply Z.le_refl.
      * apply Pos2Z.pos_lt_pos in E. apply Z.lt_le_incl, E.
    + apply (canonical_normal m e Hv Ee).
Qed.

Lemma digits_of_band (P E d : Z) :
  104 <= E <= 106 -> 0 < d ->
  (2 ^ 53 - 1) * (2 ^ 53 - 1) * P <= 2 ^ 53 * 2 ^ 53 * 2 ^ E
  <= (2 ^ 53 + 1) * (2 ^ 53 + 1) * P ->
  2 ^ (d - 1) <= P < 2 ^ d ->
  E <= d <= E + 1.
Proof.
  intros HE Hd Hband Hdig.
  change (2 ^ 53) with 9007199254740992 in Hband.
  split; apply Z.nlt_ge; intros Hc.
  - assert (H : 2 * 2 ^ d <= 2 ^ E).
    { rewrite <- Z.pow_succ_r by lia. apply Z.pow_le_mono_r; lia. }
    set (X := 2 ^ E) in *. set (Y := 2 ^ d) in *.
    assert (0 < Y) by (apply Z.pow_pos_nonneg; lia).
    clearbody X Y. lia.
  - assert (H : 2 * 2 ^ E <= 2 ^ (d - 1)).
    { rewrite <- Z.pow_succ_r by lia. apply Z.pow_le_mono_r; lia. }
    set (X := 2 ^ E) in *. set (Y := 2 ^ (d - 1)) in *.
    assert (0 < X) by (apply Z.pow_pos_nonneg; lia).
    clearbody X Y. lia.
Qed.


Lemma leb_finite (m1 m2 : positive) (e : Z) :
  Zpos m1 <= Zpos m2 ->
  SFleb (S754_finite false m1 e) (S754_finite false m2 e) = true.
Proof.
  intros H. unfold SFleb. cbn [SFcompare]. rewrite Z.compare_refl.
  rewrite Pos.compare_cont_spec. cbn [Pos.switch_Eq].
  destruct (Pos.compare_spec m1 m2) as [E|E|E]; try reflexivity.
  apply Pos2Z.pos_lt_pos in E. lia.
Qed.

Lemma leb_finite_lt (m1 m2 : positive) (e1 e2 : Z) :
  e1 < e2 ->
  SFleb (S754_finite false m1 e1) (S754_finite false m2 e2) = true.
Proof.
  intros H. unfold SFleb. cbn [SFcompare].
  apply Z.compare_lt_iff in H. rewrite H. reflexivity.
Qed.

Ltac eval_pow2 :=
  repeat match goal with
         | H : context [2 ^ ?k] |- _ =>
             let v := eval vm_compute in (2 ^ k) in
             change (2 ^ k) with v in H
         end.

Lemma round_product_near_one (P : positive) (E : Z) :
  104 <= E <= 106 ->
  (2 ^ 53 - 1) * (2 ^ 53 - 1) * Zpos P <= 2 ^ 53 * 2 ^ 53 * 2 ^ E
  <= (2 ^ 53 + 1) * (2 ^ 53 + 1) * Zpos P ->
  valid_binary (binary_round_aux prec emax false (Zpos P) (- E) loc_Exact)
  = true ->
  SFleb (S754_finite false 9007199254740990 (-53))
        (binary_round_aux prec emax false (Zpos P) (- E) loc_Exact) = true
  /\ SFleb (binary_round_aux prec emax false (Zpos P) (- E) loc_Exact)
           (S754_finite false 4503599627370497 (-52)) = true.
Proof.
  intros HE Hband.
  destruct (binary_round_aux_nearest false (Zpos P) 1 (Zpos P) (- E) loc_Exact)
    as (M & f & -> & HM & Hf & Hb);
    [lia|lia|cbn [inbetween]; lia|].
  cbn [Zdigits2] in Hf. rewrite fexp_binary64 in Hf.
  pose proof (digits2_pos_bounds P) as Hdig.
  pose proof (digits_of_band _ E _ HE (eq_refl : 0 < Zpos (digits2_pos P))
                Hband Hdig) as Hd.
  rewrite !Z.mul_1_r in Hb.
  replace (f - - E) with (f + E) in Hb by lia.
  change (2 ^ 53) with 9007199254740992 in *.
  assert (Hcases : (E = 104 \/ E = 105 \/ E = 106)
                   /\ (f = -53 \/ f = -52 \/ f = -51)) by lia.
  clear Hf Hd Hdig.
  unfold finish. destruct M as [|Mp|Mp]; [| |lia].
  - exfalso.
    destruct Hcases as [ [ -> | [ -> | -> ] ] [ -> | [ -> | -> ] ] ];
      eval_pow2; lia.
  - replace (f <=? emax - prec) with true
      by (symmetry; apply Z.leb_le; unfold emax, prec; lia).
    cbn [valid_binary]. intros Hv.
    assert (HMp : 4503599627370496 <= Zpos Mp).
    { apply (canonical_normal Mp f Hv). lia. }
    destruct Hcases as [ [ -> | [ -> | -> ] ] [ -> | [ -> | -> ] ] ];
      eval_pow2;
      (split;
       [first [apply leb_finite; lia | apply leb_finite_lt; lia | exfalso; lia]
       |first [apply leb_finite; lia | apply leb_finite_lt; lia | exfalso; lia]]).
Qed.

End NearOne.

Section ReciprocalQuotients.
Local Open Scope float_scope.

(** A quotient of two numbers of clear sign that is a normal number is the
    quotient of two finite numbers that are not zero. *)
Lemma normal_quotient_inv (x y : float) :
  sign_clear x = true -> sign_clear y = true -> normal (x / y) = true ->
  exists (m1 m2 M : positive) (e1 e2 f : Z),
    Prim2SF x = S754_finite false m1 e1
    /\ Prim2SF y = S754_finite false m2 e2
    /\ Prim2SF (x / y) = S754_finite false M f
    /\ (2 ^ 52 <= Zpos M < 2 ^ 53)%Z.
Proof.
  unfold sign_clear. intros Hx Hy Hn.
  destruct (normal_inv _ Hn) as (M & f & E & HM).
  pose proof E as E'. rewrite div_spec in E'.
  destruct (Prim2SF x) as [sx|sx| |sx mx ex], (Prim2SF y) as [sy|sy| |sy my ey];
    cbn [sf_sign_clear] in Hx, Hy; try discriminate;
    try (apply negb_true_iff in Hx; subst sx);
    try (apply negb_true_iff in Hy; subst sy); try discriminate.
  exists mx, my, M, ex, ey, f. repeat split; try assumption; apply HM.
Qed.

Lemma mul_div_near_one (x y : float) :
  sign_clear x = true -> sign_clear y = true ->
  normal (x / y) = true -> normal (y / x) = true ->
  near_one (x / y * (y / x)) = true.
Proof.
  intros Hx Hy N1 N2.
  destruct (normal_quotient_inv x y Hx Hy N1)
    as (m1 & m2 & M1 & e1 & e2 & f1 & Ex & Ey & E1 & HM1).
  destruct (normal_quotient_inv y x Hy Hx N2)
    as (m2' & m1' & M2 & e2' & e1' & f2 & Ey' & Ex' & E2 & HM2).
  rewrite Ex in Ex'. rewrite Ey in Ey'.
  inversion Ex'; subst m1' e1'. inversion Ey'; subst m2' e2'.
  clear Ex' Ey'.
  pose proof E1 as D1. rewrite div_spec, Ex, Ey in D1.
  pose proof E2 as D2. rewrite div_spec, Ex, Ey in D2.
  apply SFdiv_nearest in D1. destruct D1 as (s1 & j1 & Hs1 & Hj1 & Es1 & B1).
  apply SFdiv_nearest in D2. destruct D2 as (s2 & j2 & Hs2 & Hj2 & Es2 & B2).
  destruct (product_band (Zpos m1) (Zpos m2) (Zpos M1) (Zpos M2) s1 j1 s2 j2)
    as [HE Hband]; try assumption; try reflexivity.
  pose proof (Prim2SF_valid (x / y * (y / x))) as Hv.
  unfold near_one. rewrite !leb_spec.
  change (Prim2SF 0x1.ffffffffffffep-1)
    with (S754_finite false 9007199254740990 (-53)).
  change (Prim2SF 0x1.0000000000001p+0)
    with (S754_finite false 4503599627370497 (-52)).
  rewrite mul_spec, E1, E2 in *.
  unfold SF64mul in *. cbn [SFmul xorb] in *.
  replace (f1 + f2)%Z with (- (s1 + s2 - (j1 + j2)))%Z in * by lia.
  rewrite Pos2Z.inj_mul in *.
  destruct (round_product_near_one (M1 * M2) _ HE) as [G1 G2].
  - rewrite Pos2Z.inj_mul. exact Hband.
  - rewrite Pos2Z.inj_mul. exact Hv.
  - rewrite Pos2Z.inj_mul in G1, G2. rewrite G1, G2. reflexivity.
Qed.

End ReciprocalQuotients.

(** C8, as the program has it.  When the two F statistics
    [var(a) / var(b)] and [var(b) / var(a)] are normal numbers, so that
    neither quotient has overflowed or underflowed, their binary64 product
    lies between [1 - 2 ^ -52] and [1 + 2 ^ -52]. *)
Theorem f_statistics_product_near_one
    (stats : scipy_stats float) (a b : list float) :
  normal (np_var a 1 / np_var b 1) = true ->
  normal (np_var b 1 / np_var a 1) = true ->
  exists Fab pab Fba pba : float,
    two_sample_variance_f_test stats a b = Returns (Fab, pab)
    /\ two_sample_variance_f_test stats b a = Returns (Fba, pba)
    /\ Fab = (np_var a 1 / np_var b 1)%float
    /\ Fba = (np_var b 1 / np_var a 1)%float
    /\ near_one (Fab * Fba) = true.
Proof.
  intros Hab Hba. do 4 eexists.
  split; [reflexivity|]. split; [reflexivity|].
  split; [reflexivity|]. split; [reflexivity|].
  apply mul_div_near_one; try assumption; apply np_var_sign_clear.
Qed.

Lemma f_statistics_product_near_one_witness :
  (np_var [0; 1]%float 1 = 0.5%float /\ np_var [0; 7]%float 1 = 24.5%float)
  /\ exists Fab pab Fba pba : float,
       two_sample_variance_f_test (stand_in uniform_cdf)
         [0; 1]%float [0; 7]%float
       = Returns (Fab, pab)
       /\ two_sample_variance_f_test (stand_in uniform_cdf)
            [0; 7]%float [0; 1]%float
          = Returns (Fba, pba)
       /\ Fab = (np_var [0; 1] 1 / np_var [0; 7] 1)%float
       /\ Fba = (np_var [0; 7] 1 / np_var [0; 1] 1)%float
       /\ near_one (Fab * Fba) = true.
Proof.
  split; [split; vm_compute; reflexivity|].
  apply (f_statistics_product_near_one
           (stand_in uniform_cdf) [0; 1]%float [0; 7]%float).
  - vm_compute. reflexivity.
  - vm_compute. reflexivity.
Defined.

(** Without the condition the product can be anything but near 1: for
    [a = [0, 2 ^ -300]] and [b = [0, 2 ^ 300]] the first quotient
    underflows to 0, the second overflows to an infinity, and their
    product is a NaN. *)
Lemma f_statistics_product_nan :
  let a := [0; 0x1p-300]%float in
  let b := [0; 0x1p300]%float in
  (np_var a 1 / np_var b 1 = 0)%float
  /\ (np_var b 1 / np_var a 1 = infinity)%float
  /\ (np_var a 1 / np_var b 1 * (np_var b 1 / np_var a 1) = nan)%float.
Proof.
  cbv zeta. repeat split; vm_compute; reflexivity.
Qed.

(** ** Samples of at most two observations

    The sum of two numbers does not depend on their order, and neither
    does the variance of a sample of two. *)

Section Pairs.
Local Open Scope float_scope.

Lemma SFadd_comm (x y : spec_float) : SF64add x y = SF64add y x.
Proof.
  unfold SF64add.
  destruct x as [sx|sx| |sx mx ex], y as [sy|sy| |sy my ey];
    try reflexivity; try (destruct sx, sy; reflexivity).
  cbn [SFadd]. rewrite (Z.min_comm ey ex). f_equal. apply Z.add_comm.
Qed.

Lemma float_add_comm (x y : float) : x + y = y + x.
Proof.
  apply Prim2SF_inj. rewrite !add_spec. apply SFadd_comm.
Qed.

(** [0 + x] is [x], but for the negative zero, which it turns into the
    positive one. *)
Lemma SFadd_zero_l (x : spec_float) :
  SF64add (S754_zero false) x
  = match x with S754_zero true => S754_zero false | _ => x end.
Proof.
  destruct x as [[|]|[|]| |s m e]; reflexivity.
Qed.

Lemma sum_of_two_comm (x y : float) : 0 + x + y = 0 + y + x.
Proof.
  apply Prim2SF_inj. rewrite !add_spec.
  change (Prim2SF 0) with (S754_zero false). rewrite !SFadd_zero_l.
  destruct (Prim2SF x) as [[|]|[|]| |sx mx ex], (Prim2SF y) as [[|]|[|]| |sy my ey];
    try reflexivity.
  apply SFadd_comm.
Qed.

Lemma add_reduce_pair (x y : float) : add_reduce [x; y] = add_reduce [y; x].
Proof.
  unfold add_reduce. cbn [length pairwise_sum Nat.ltb Nat.leb sequential_sum fold_left].
  cbn [add zero binary64]. f_equal. apply sum_of_two_comm.
Qed.

Lemma np_var_pair (x y : float) (ddof : Z) :
  np_var [y; x] ddof = np_var [x; y] ddof.
Proof.
  unfold np_var. cbn [length map].
  rewrite (add_reduce_pair y x).
  set (m := div (add_reduce [x; y]) _).
  rewrite (add_reduce_pair (mul (sub y m) (sub y m))). reflexivity.
Qed.

(** Up to two observations, the order of a sample does not matter to the
    variance. *)
Lemma np_var_perm_short (a a' : list float) (ddof : Z) :
  Permutation a a' -> (length a <= 2)%nat -> np_var a' ddof = np_var a ddof.
Proof.
  intros Hp Hn.
  destruct a as [|x [|y [|z a]]]; [| | |simpl in Hn; lia].
  - apply Permutation_nil in Hp. subst a'. reflexivity.
  - apply Permutation_length_1_inv in Hp. subst a'. reflexivity.
  - apply Permutation_length_2_inv in Hp. destruct Hp as [->| ->].
    + reflexivity.
    + apply np_var_pair.
Qed.
End Pairs.

(** ** Exact rounding

    A mantissa and exponent whose value is that of a valid number are
    rounded to this number: nothing is lost. *)

Section ExactRounding.
Local Open Scope Z_scope.

Lemma inbetween_exact (N D m c : Z) (l : location) :
  0 < D -> N = c * D -> inbetween N D m l -> m = c /\ l = loc_Exact.
Proof.
  intros HD ->. destruct l as [|[| |]]; cbn [inbetween]; intros H.
  - split; [|reflexivity]. symmetry. apply (Z.mul_cancel_r _ _ D); lia.
  - exfalso. replace (2 * (c * D)) with (2 * c * D) in H by ring.
    apply Z.mul_cancel_r in H; lia.
  - exfalso. destruct H as [H1 H2].
    apply Z.mul_lt_mono_pos_r in H1; [|exact HD].
    replace (2 * (c * D)) with (2 * c * D) in H2 by ring.
    apply Z.mul_lt_mono_pos_r in H2; [|exact HD]. lia.
  - exfalso. destruct H as [H1 H2].
    apply Z.mul_lt_mono_pos_r in H2; [|exact HD].
    replace (2 * (c * D)) with (2 * c * D) in H1 by ring.
    apply Z.mul_lt_mono_pos_r in H1; [|exact HD]. lia.
Qed.

Lemma Zdigits2_unique (m d : Z) :
  2 ^ (d - 1) <= m < 2 ^ d -> 0 < m -> Zdigits2 m = d.
Proof.
  intros [Hlo Hhi] Hm. destruct m as [|p|p]; try lia.
  cbn [Zdigits2]. destruct (digits2_pos_bounds p) as [Blo Bhi].
  set (d' := Zpos (digits2_pos p)) in *.
  assert (Hd' : 0 < d') by (unfold d'; lia).
  assert (Hd : 0 < d).
  { destruct (Z_lt_le_dec 0 d) as [H|H]; [exact H|].
    exfalso. assert (2 ^ d <= 2 ^ 0) by (apply Z.pow_le_mono_r; lia).
    change (2 ^ 0) with 1 in *. lia. }
  assert (d' - 1 < d) by (apply (Z.pow_lt_mono_r_iff 2); lia).
  assert (d - 1 < d') by (apply (Z.pow_lt_mono_r_iff 2); lia).
  lia.
Qed.

Lemma Zdigits2_shift (p : positive) (t : Z) :
  0 <= t -> Zdigits2 (Zpos p * 2 ^ t) = Zdigits2 (Zpos p) + t.
Proof.
  intros Ht. cbn [Zdigits2]. destruct (digits2_pos_bounds p) as [Blo Bhi].
  assert (H2 : 0 < 2 ^ t) by (apply Z.pow_pos_nonneg; lia).
  apply Zdigits2_unique; [|nia].
  replace (Zpos (digits2_pos p) + t - 1) with (Zpos (digits2_pos p) - 1 + t)
    by lia.
  rewrite !Z.pow_add_r by lia. nia.
Qed.

(** A mantissa that is an exact multiple of the unit of a valid number is
    rounded to that number. *)
Lemma binary_round_aux_exact (s : bool) (M m : positive) (e f : Z) :
  bounded prec emax m f = true -> e <= f ->
  Zpos M = Zpos m * 2 ^ (f - e) ->
  binary_round_aux prec emax s (Zpos M) e loc_Exact = S754_finite s m f.
Proof.
  intros Hb Hef EM.
  pose proof Hb as Hb'. unfold bounded, canonical_mantissa in Hb'.
  apply andb_prop in Hb'. destruct Hb' as [Hc Hmax].
  apply Z.eqb_eq in Hc. apply Z.leb_le in Hmax.
  assert (Hd : Zdigits2 (Zpos M) + e = Zpos (digits2_pos m) + f).
  { rewrite EM, Zdigits2_shift by lia. cbn [Zdigits2]. lia. }
  unfold binary_round_aux.
  pose proof (shr_fexp_inbetween (Zpos M) 1 (Zpos M) e loc_Exact
                eq_refl (Pos2Z.is_nonneg M) (eq_sym (Z.mul_1_r _))) as S1.
  destruct (shr_fexp prec emax (Zpos M) e loc_Exact) as [mrs1 e1].
  destruct S1 as (E1 & H0 & Hle & Hin).
  rewrite Hd, Hc in E1. rewrite Z.max_r in E1 by lia. subst e1.
  rewrite Z.mul_1_r in Hin.
  assert (H2 : 0 < 2 ^ (f - e)) by (apply Z.pow_pos_nonneg; lia).
  destruct (inbetween_exact _ _ _ (Zpos m) _ H2 EM Hin) as [Em El].
  rewrite Em, El. cbn [round_nearest_even].
  unfold shr_fexp at 1. cbn [Zdigits2 shr_record_of_loc].
  rewrite Hc, Z.sub_diag. cbn [shr shr_m].
  apply Z.leb_le in Hmax. rewrite Hmax. reflexivity.
Qed.

(** A number whose value is that of a valid number is rounded to it. *)
Lemma binary_round_exact (s : bool) (M m : positive) (e f c : Z) :
  bounded prec emax m f = true -> c <= e -> c <= f ->
  Zpos M * 2 ^ (e - c) = Zpos m * 2 ^ (f - c) ->
  binary_round prec emax s M e = S754_finite s m f.
Proof.
  intros Hb Hce Hcf EM.
  pose proof Hb as Hb'. unfold bounded, canonical_mantissa in Hb'.
  apply andb_prop in Hb'. destruct Hb' as [Hc _].
  apply Z.eqb_eq in Hc.
  assert (Hd : Zpos (digits2_pos M) + e = Zpos (digits2_pos m) + f).
  { pose proof (Zdigits2_shift M (e - c) ltac:(lia)) as D1.
    pose proof (Zdigits2_shift m (f - c) ltac:(lia)) as D2.
    rewrite EM, D2 in D1. cbn [Zdigits2] in D1. lia. }
  unfold binary_round, shl_align. rewrite Hd, Hc.
  destruct (f - e) as [|d|d] eqn:Ed.
  - apply binary_round_aux_exact; [exact Hb|lia|].
    assert (e = f) by lia. subst f.
    rewrite Z.sub_diag, Z.pow_0_r, Z.mul_1_r.
    assert (0 < 2 ^ (e - c)) by (apply Z.pow_pos_nonneg; lia). nia.
  - apply binary_round_aux_exact; [exact Hb|lia|].
    rewrite Ed.
    assert (H2 : 0 < 2 ^ (e - c)) by (apply Z.pow_pos_nonneg; lia).
    apply (Z.mul_cancel_r _ _ (2 ^ (e - c))); [lia|].
    rewrite EM, <- Z.mul_assoc, <- Z.pow_add_r by lia.
    do 2 f_equal. lia.
  - apply binary_round_aux_exact; [exact Hb|lia|].
    rewrite Z.sub_diag, Z.pow_0_r, Z.mul_1_r, iter_xO_spec.
    assert (H2 : 0 < 2 ^ (f - c)) by (apply Z.pow_pos_nonneg; lia).
    apply (Z.mul_cancel_r _ _ (2 ^ (f - c))); [lia|].
    rewrite <- EM, <- Z.mul_assoc, <- Z.pow_add_r by lia.
    do 2 f_equal. lia.
Qed.

End ExactRounding.

(** ** Integers in binary64

    The integers below [2 ^ 53] in absolute value are binary64 numbers, and
    sums, differences, squares and exact quotients of such integers are
    computed without rounding as long as the result stays below [2 ^ 53]. *)

Section Integers.
Local Open Scope Z_scope.

(** The valid number of value [k], for a positive integer [k] below
    [2 ^ 53]. *)
Lemma canonical_exists (k : positive) :
  Zpos k < 2 ^ 53 ->
  exists m : positive,
    bounded prec emax m (Zdigits2 (Zpos k) - 53) = true
    /\ Zpos m = Zpos k * 2 ^ (53 - Zdigits2 (Zpos k)).
Proof.
  intros Hk.
  pose proof (Zdigits2_lt (Zpos k) 53 ltac:(lia) ltac:(lia) Hk) as Hd.
  assert (Hd0 : 0 < Zdigits2 (Zpos k)) by (cbn; lia).
  set (d := Zdigits2 (Zpos k)) in *.
  assert (Hp : 0 < Zpos k * 2 ^ (53 - d)).
  { apply Z.mul_pos_pos; [lia|apply Z.pow_pos_nonneg; lia]. }
  exists (Z.to_pos (Zpos k * 2 ^ (53 - d))).
  rewrite Z2Pos.id by exact Hp. split; [|reflexivity].
  unfold bounded, canonical_mantissa.
  assert (E : Zpos (digits2_pos (Z.to_pos (Zpos k * 2 ^ (53 - d)))) = 53).
  { change (Zpos (digits2_pos ?p)) with (Zdigits2 (Zpos p)).
    rewrite Z2Pos.id by exact Hp. rewrite Zdigits2_shift by lia.
    fold d. lia. }
  rewrite E, fexp_binary64.
  apply andb_true_intro. split.
  - apply Z.eqb_eq. lia.
  - apply Z.leb_le. unfold emax, prec. lia.
Qed.

Lemma SFint_digits (k : Z) (s : bool) (m : positive) (f : Z) :
  SFint k (S754_finite s m f) ->
  f = Zdigits2 k - 53 /\ s = (k <? 0) /\ k <> 0 /\ Z.abs k < 2 ^ 53
  /\ Zpos m = Z.abs k * 2 ^ (- f).
Proof.
  cbn [SFint]. intros (Hb & Hf & Ek).
  assert (H2 : 0 < 2 ^ (- f)) by (apply Z.pow_pos_nonneg; lia).
  assert (Hk : k <> 0) by (intros ->; destruct s; cbn in Ek; lia).
  assert (Hs : s = (k <? 0)).
  { destruct s; cbn [cond_Zopp] in Ek; symmetry.
    - apply Z.ltb_lt. nia.
    - apply Z.ltb_ge. nia. }
  assert (Em : Zpos m = Z.abs k * 2 ^ (- f)).
  { destruct s; cbn [cond_Zopp] in Ek.
    - assert (k < 0) by nia. rewrite Z.abs_neq by lia. lia.
    - assert (0 < k) by nia. rewrite Z.abs_eq by lia. lia. }
  assert (Ed : Zdigits2 (Zpos m) = Zdigits2 k - f).
  { rewrite Em. destruct k as [|p|p]; [lia| |];
      cbn [Z.abs]; rewrite Zdigits2_shift by lia; cbn [Zdigits2]; lia. }
  pose proof Hb as Hb'. unfold bounded, canonical_mantissa in Hb'.
  apply andb_prop in Hb'. destruct Hb' as [Hc _].
  apply Z.eqb_eq in Hc. rewrite fexp_binary64 in Hc.
  cbn [Zdigits2] in Ed.
  assert (Hdk : 0 < Zdigits2 k) by (destruct k; cbn; lia).
  assert (Ef : f = Zdigits2 k - 53) by lia.
  repeat split; try assumption.
  destruct (digits2_pos_bounds m) as [_ Hhi].
  assert (Z.abs k <= Zpos m).
  { rewrite Em. assert (1 <= 2 ^ (- f)) by lia. nia. }
  assert (2 ^ Zpos (digits2_pos m) <= 2 ^ 53)
    by (apply Z.pow_le_mono_r; lia).
  lia.
Qed.

Lemma SFint_unique (k : Z) (x y : spec_float) :
  SFint k x -> SFint k y -> x = y.
Proof.
  destruct x as [sx|sx| |sx mx fx], y as [sy|sy| |sy my fy];
    try (cbn [SFint]; tauto).
  - cbn [SFint]. intros [-> _] [-> _]. reflexivity.
  - intros [_ ->] Hy. apply SFint_digits in Hy. tauto.
  - intros Hx [_ ->]. apply SFint_digits in Hx. tauto.
  - intros Hx Hy. apply SFint_digits in Hx, Hy.
    destruct Hx as (-> & -> & _ & _ & Ex), Hy as (-> & -> & _ & _ & Ey).
    rewrite <- Ey in Ex. inversion Ex. reflexivity.
Qed.

Lemma SFint_valid (k : Z) (x : spec_float) :
  SFint k x -> valid_binary x = true.
Proof.
  destruct x; cbn [SFint valid_binary]; tauto.
Qed.

(** A number of integer value [k], given with an exponent that is not
    positive, is normalised to the valid number of value [k]. *)
Lemma binary_normalize_int (k N e : Z) :
  Z.abs k < 2 ^ 53 -> e <= 0 -> N = k * 2 ^ (- e) ->
  SFint k (binary_normalize prec emax N e false).
Proof.
  intros Hk He ->.
  assert (H2 : 0 < 2 ^ (- e)) by (apply Z.pow_pos_nonneg; lia).
  destruct k as [|p|p].
  - cbn. split; reflexivity.
  - destruct (canonical_exists p Hk) as (m & Hb & Em).
    pose proof (Zdigits2_lt (Zpos p) 53 ltac:(lia) ltac:(lia) Hk) as Hd.
    set (f := Zdigits2 (Zpos p) - 53) in *.
    assert (HN : Zpos p * 2 ^ (- e) = Zpos (Z.to_pos (Zpos p * 2 ^ (- e)))).
    { rewrite Z2Pos.id; [reflexivity|nia]. }
    rewrite HN. cbn [binary_normalize].
    rewrite (binary_round_exact false _ m e f (Z.min e f) Hb); try lia.
    + cbn [SFint cond_Zopp]. repeat split; try assumption; try lia.
      rewrite Em. do 2 f_equal. lia.
    + rewrite <- HN, Em, <- !Z.mul_assoc, <- !Z.pow_add_r by lia.
      do 2 f_equal. lia.
  - assert (Hk' : Zpos p < 2 ^ 53) by (cbn [Z.abs] in Hk; exact Hk).
    destruct (canonical_exists p Hk') as (m & Hb & Em).
    pose proof (Zdigits2_lt (Zpos p) 53 ltac:(lia) ltac:(lia) Hk') as Hd.
    set (f := Zdigits2 (Zpos p) - 53) in *.
    assert (HN : Zneg p * 2 ^ (- e) = Zneg (Z.to_pos (Zpos p * 2 ^ (- e)))).
    { rewrite <- !Pos2Z.opp_pos, Z2Pos.id by nia. lia. }
    rewrite HN. cbn [binary_normalize].
    rewrite (binary_round_exact true _ m e f (Z.min e f) Hb); try lia.
    + cbn [SFint cond_Zopp]. repeat split; try assumption; try lia.
      rewrite Em. replace (- f) with (53 - Zdigits2 (Zpos p)) by (unfold f; lia).
      rewrite <- (Pos2Z.opp_pos p). ring.
    + rewrite Z2Pos.id by nia.
      rewrite Em, <- !Z.mul_assoc, <- !Z.pow_add_r by lia.
      do 2 f_equal. lia.
Qed.

Lemma SFint_integer (k : Z) :
  Z.abs k < 2 ^ 53 -> SFint k (Prim2SF (integer k)).
Proof.
  intros Hk.
  assert (H : SFint k (binary_normalize prec emax k 0 false)).
  { apply binary_normalize_int; [exact Hk|lia|]. cbn. lia. }
  unfold integer. rewrite Prim2SF_SF2Prim; [exact H|].
  apply (SFint_valid k), H.
Qed.

(** A float is [integer k] as soon as its specification has the value
    [k]. *)
Lemma integer_intro (k : Z) (x : float) :
  Z.abs k < 2 ^ 53 -> SFint k (Prim2SF x) -> x = integer k.
Proof.
  intros Hk Hx. apply Prim2SF_inj.
  apply (SFint_unique k); [exact Hx|apply SFint_integer, Hk].
Qed.

End Integers.

Section IntegerArithmetic.
Local Open Scope Z_scope.

Lemma shl_align_fst (m : positive) (e e' : Z) :
  e' <= e -> Zpos (fst (shl_align m e e')) = Zpos m * 2 ^ (e - e').
Proof.
  intros He. unfold shl_align.
  destruct (e' - e) as [|d|d] eqn:Ed; cbn [fst].
  - replace (e - e') with 0 by lia. rewrite Z.pow_0_r. lia.
  - lia.
  - rewrite iter_xO_spec. do 2 f_equal. lia.
Qed.

Lemma cond_Zopp_mul (s : bool) (u v : Z) :
  cond_Zopp s (u * v) = cond_Zopp s u * v.
Proof.
  destruct s; cbn [cond_Zopp]; ring.
Qed.

Lemma aligned_value (k : Z) (s : bool) (m : positive) (f e : Z) :
  SFint k (S754_finite s m f) -> e <= f ->
  cond_Zopp s (Zpos (fst (shl_align m f e))) = k * 2 ^ (- e).
Proof.
  cbn [SFint]. intros (_ & Hf & Ek) He.
  rewrite shl_align_fst, cond_Zopp_mul, Ek, <- Z.mul_assoc, <- Z.pow_add_r
    by lia.
  do 2 f_equal. lia.
Qed.

Lemma SFadd_int (a b : Z) (x y : spec_float) :
  SFint a x -> SFint b y -> Z.abs (a + b) < 2 ^ 53 ->
  SFint (a + b) (SF64add x y).
Proof.
  intros Hx Hy Hab. unfold SF64add.
  destruct x as [sx|sx| |sx mx ex], y as [sy|sy| |sy my ey];
    try (cbn [SFint] in Hx, Hy; tauto).
  - destruct Hx as [-> ->], Hy as [-> ->]. cbn. split; reflexivity.
  - destruct Hx as [_ ->]. cbn [SFadd Z.add]. exact Hy.
  - destruct Hy as [_ ->]. cbn [SFadd]. rewrite Z.add_0_r. exact Hx.
  - cbn [SFadd].
    pose proof Hx as (_ & Hex & _). pose proof Hy as (_ & Hey & _).
    apply binary_normalize_int; [exact Hab|lia|].
    rewrite (aligned_value a), (aligned_value b) by (assumption || lia).
    ring.
Qed.

Lemma SFsub_int (a b : Z) (x y : spec_float) :
  SFint a x -> SFint b y -> Z.abs (a - b) < 2 ^ 53 ->
  SFint (a - b) (SF64sub x y).
Proof.
  intros Hx Hy Hab. unfold SF64sub.
  destruct x as [sx|sx| |sx mx ex], y as [sy|sy| |sy my ey];
    try (cbn [SFint] in Hx, Hy; tauto).
  - destruct Hx as [-> ->], Hy as [-> ->]. cbn. split; reflexivity.
  - destruct Hx as [_ ->]. cbn [SFsub Z.sub Z.add].
    destruct Hy as (Hb & Hf & Ek). cbn [SFint].
    repeat split; try assumption.
    destruct sy; cbn [negb cond_Zopp] in *; lia.
  - destruct Hy as [_ ->]. cbn [SFsub]. rewrite Z.sub_0_r. exact Hx.
  - cbn [SFsub].
    pose proof Hx as (_ & Hex & _). pose proof Hy as (_ & Hey & _).
    apply binary_normalize_int; [exact Hab|lia|].
    rewrite (aligned_value a), (aligned_value b) by (assumption || lia).
    ring.
Qed.

Lemma Zdigits2_bounds (k : Z) :
  k <> 0 -> 2 ^ (Zdigits2 k - 1) <= Z.abs k < 2 ^ Zdigits2 k.
Proof.
  destruct k as [|p|p]; [tauto| |]; intros _; cbn [Zdigits2 Z.abs];
    apply digits2_pos_bounds.
Qed.

Lemma Zdigits2_pos (k : Z) : k <> 0 -> 0 < Zdigits2 k.
Proof.
  destruct k; cbn; lia.
Qed.

(** The product of two numbers has at least as many digits as the two
    together, less one; and at most as many as the two together. *)
Lemma Zdigits2_mul (a b : Z) :
  a <> 0 -> b <> 0 ->
  Zdigits2 a + Zdigits2 b - 1 <= Zdigits2 (a * b) <= Zdigits2 a + Zdigits2 b.
Proof.
  intros Ha Hb.
  pose proof (Zdigits2_bounds a Ha) as [La Ua].
  pose proof (Zdigits2_bounds b Hb) as [Lb Ub].
  assert (Hab : a * b <> 0) by nia.
  pose proof (Zdigits2_bounds (a * b) Hab) as [Lab Uab].
  pose proof (Zdigits2_pos a Ha). pose proof (Zdigits2_pos b Hb).
  pose proof (Zdigits2_pos _ Hab).
  rewrite Z.abs_mul in *.
  assert (P1 : 2 ^ (Zdigits2 a - 1 + (Zdigits2 b - 1)) <= Z.abs a * Z.abs b).
  { rewrite Z.pow_add_r by lia. apply Z.mul_le_mono_nonneg; try lia;
      apply Z.pow_nonneg; lia. }
  assert (P2 : Z.abs a * Z.abs b < 2 ^ (Zdigits2 a + Zdigits2 b)).
  { rewrite Z.pow_add_r by lia. apply Z.mul_lt_mono_nonneg; lia. }
  assert (Zdigits2 a - 1 + (Zdigits2 b - 1) < Zdigits2 (a * b))
    by (apply (Z.pow_lt_mono_r_iff 2); lia).
  assert (Zdigits2 (a * b) - 1 < Zdigits2 a + Zdigits2 b)
    by (apply (Z.pow_lt_mono_r_iff 2); lia).
  lia.
Qed.

Lemma SFmul_int_square (a : Z) (x : spec_float) :
  SFint a x -> a * a < 2 ^ 53 -> SFint (a * a) (SF64mul x x).
Proof.
  intros Hx Haa. unfold SF64mul.
  destruct x as [sx|sx| |sx mx ex]; try (cbn [SFint] in Hx; tauto).
  - destruct Hx as [-> ->]. cbn. split; reflexivity.
  - cbn [SFmul]. rewrite xorb_nilpotent.
    pose proof (SFint_digits _ _ _ _ Hx) as (Ef & _ & Ha & Hk & Em).
    assert (Haa0 : 0 < a * a) by nia.
    destruct (a * a) as [|p|p] eqn:Eaa; try lia.
    destruct (canonical_exists p Haa) as (m & Hb & Emm).
    pose proof (Zdigits2_mul a a Ha Ha) as Hd. rewrite Eaa in Hd.
    pose proof (Zdigits2_lt (Zpos p) 53 ltac:(lia) ltac:(lia) Haa) as Hp.
    rewrite (binary_round_aux_exact false _ m _ _ Hb); [| lia |].
    + cbn [SFint cond_Zopp]. repeat split; try assumption; try lia.
      rewrite Emm. do 2 f_equal. lia.
    + rewrite Pos2Z.inj_mul, Em, Emm.
      replace (Z.abs a * 2 ^ (- ex) * (Z.abs a * 2 ^ (- ex)))
        with (Z.abs a * Z.abs a * (2 ^ (- ex) * 2 ^ (- ex))) by ring.
      rewrite <- Z.abs_mul, Eaa. cbn [Z.abs].
      rewrite <- Z.mul_assoc, <- !Z.pow_add_r by lia.
      do 2 f_equal. lia.
Qed.

Lemma SFdiv_int (n mu : Z) (x y : spec_float) :
  0 < n -> SFint (n * mu) x -> SFint n y -> SFint mu (SF64div x y).
Proof.
  intros Hn Hx Hy. unfold SF64div.
  destruct y as [sy|sy| |sy my ey]; try (cbn [SFint] in Hy; tauto);
    [destruct Hy as [_ Hy]; lia|].
  pose proof (SFint_digits _ _ _ _ Hy) as (Efy & Esy & _ & Hkn & Emy).
  replace (n <? 0) with false in Esy by (symmetry; apply Z.ltb_ge; lia).
  subst sy. rewrite (Z.abs_eq n) in Emy by lia.
  destruct x as [sx|sx| |sx mx ex]; try (cbn [SFint] in Hx; tauto).
  - destruct Hx as [-> Hx]. cbn. split; [reflexivity|nia].
  - pose proof (SFint_digits _ _ _ _ Hx) as (Efx & Esx & Hnm & Hkx & Emx).
    pose proof Hx as (_ & Hex & _). pose proof Hy as (_ & Hey & _).
    assert (Hmu : mu <> 0) by nia.
    assert (H2x : 0 < 2 ^ (- ex)) by (apply Z.pow_pos_nonneg; lia).
    assert (H2y : 0 < 2 ^ (- ey)) by (apply Z.pow_pos_nonneg; lia).
    assert (Hkm : Z.abs mu < 2 ^ 53).
    { rewrite Z.abs_mul, (Z.abs_eq n) in Hkx by lia. nia. }
    pose proof (Zdigits2_mul n mu ltac:(lia) Hmu) as Hd.
    cbn [SFdiv].
    pose proof (SFdiv_core_binary_inbetween mx my ex ey) as Hc.
    destruct (SFdiv_core_binary prec emax (Zpos mx) ex (Zpos my) ey)
      as [[q e'] l].
    destruct Hc as (Ee & Hq & Hin).
    assert (Edx : Zdigits2 (Zpos mx) + ex = Zdigits2 (n * mu)).
    { rewrite Emx. destruct (n * mu) as [|p|p]; [lia| |];
        cbn [Z.abs]; rewrite Zdigits2_shift by lia; cbn [Zdigits2]; lia. }
    assert (Edy : Zdigits2 (Zpos my) + ey = Zdigits2 n).
    { rewrite Emy. destruct n as [|p|p]; try lia.
      rewrite Zdigits2_shift by lia. cbn [Zdigits2]. lia. }
    rewrite Edx, Edy, fexp_binary64 in Ee.
    pose proof (Zdigits2_pos mu Hmu) as Hdm.
    set (f := Zdigits2 mu - 53).
    assert (Hmf : Zdigits2 mu <= 53).
    { destruct mu as [|p|p]; [lia| |]; cbn [Z.abs] in Hkm;
        apply (Zdigits2_lt (Zpos p)); lia. }
    assert (He'f : e' <= f) by (unfold f; lia).
    assert (Hf0 : f <= 0) by (unfold f; lia).
    (* the quotient of the mantissas is exact *)
    assert (EN : Zpos mx * 2 ^ (ex - ey - e')
                 = Z.abs mu * 2 ^ (- e') * Zpos my).
    { rewrite Emx, Emy, Z.abs_mul, (Z.abs_eq n) by lia.
      replace (n * Z.abs mu * 2 ^ (- ex) * 2 ^ (ex - ey - e'))
        with (n * Z.abs mu * (2 ^ (- ex) * 2 ^ (ex - ey - e'))) by ring.
      replace (Z.abs mu * 2 ^ (- e') * (n * 2 ^ (- ey)))
        with (n * Z.abs mu * (2 ^ (- e') * 2 ^ (- ey))) by ring.
      rewrite <- !Z.pow_add_r by lia. do 2 f_equal. lia. }
    destruct (inbetween_exact _ _ _ _ _ (eq_refl : 0 < Zpos my) EN Hin)
      as [-> ->].
    assert (Hsx : xorb sx false = (mu <? 0)).
    { rewrite xorb_false_r, Esx.
      destruct (Z.ltb_spec (n * mu) 0), (Z.ltb_spec mu 0); try reflexivity;
        nia. }
    rewrite Hsx.
    assert (Hpm : exists p : positive, Z.abs mu = Zpos p).
    { destruct mu as [|p|p]; [lia| |]; exists p; reflexivity. }
    destruct Hpm as [p Ep].
    assert (Hp : Zpos p < 2 ^ 53) by lia.
    destruct (canonical_exists p Hp) as (m & Hb & Emm).
    assert (Edp : Zdigits2 (Zpos p) = Zdigits2 mu).
    { rewrite <- Ep. destruct mu; reflexivity. }
    rewrite Edp in Hb, Emm. fold f in Hb.
    assert (Eq : Z.abs mu * 2 ^ (- e') = Zpos (Z.to_pos (Z.abs mu * 2 ^ (- e')))).
    { rewrite Z2Pos.id; [reflexivity|].
      apply Z.mul_pos_pos; [lia|apply Z.pow_pos_nonneg; lia]. }
    rewrite Eq.
    rewrite (binary_round_aux_exact _ _ m e' f Hb He'f).
    + cbn [SFint]. repeat split; try assumption.
      replace (- f) with (53 - Zdigits2 mu) by (unfold f; lia).
      destruct (Z.ltb_spec mu 0) as [Hneg|Hpos]; cbn [cond_Zopp];
        rewrite Emm, <- Ep; [rewrite Z.abs_neq by lia|rewrite Z.abs_eq by lia];
        ring.
    + rewrite <- Eq, Emm, <- Ep, <- Z.mul_assoc, <- Z.pow_add_r by lia.
      do 2 f_equal. unfold f. lia.
Qed.

End IntegerArithmetic.

Section IntegerFloats.
Local Open Scope float_scope.

Lemma integer_zero : integer 0 = 0.
Proof. reflexivity. Qed.

Lemma integer_add (a b : Z) :
  (Z.abs a < 2 ^ 53)%Z -> (Z.abs b < 2 ^ 53)%Z -> (Z.abs (a + b) < 2 ^ 53)%Z ->
  integer a + integer b = integer (a + b).
Proof.
  intros Ha Hb Hab. apply integer_intro; [exact Hab|].
  rewrite add_spec. apply SFadd_int; try apply SFint_integer; assumption.
Qed.

Lemma integer_add_bounded (a b : Z) :
  (- 2 ^ 53 < a < 2 ^ 53)%Z -> (- 2 ^ 53 < b < 2 ^ 53)%Z ->
  (- 2 ^ 53 < a + b < 2 ^ 53)%Z ->
  integer a + integer b = integer (a + b).
Proof.
  intros Ha Hb Hab. apply integer_add; apply Z.abs_lt; assumption.
Qed.

Lemma integer_sub (a b : Z) :
  (Z.abs a < 2 ^ 53)%Z -> (Z.abs b < 2 ^ 53)%Z -> (Z.abs (a - b) < 2 ^ 53)%Z ->
  integer a - integer b = integer (a - b).
Proof.
  intros Ha Hb Hab. apply integer_intro; [exact Hab|].
  rewrite sub_spec. apply SFsub_int; try apply SFint_integer; assumption.
Qed.

Lemma integer_square (a : Z) :
  (a * a < 2 ^ 53)%Z -> integer a * integer a = integer (a * a).
Proof.
  intros Haa.
  assert (Ha : (Z.abs a < 2 ^ 53)%Z).
  { apply (Z.le_lt_trans _ (a * a)); [|exact Haa].
    destruct (Z.abs_spec a) as [[? ->]|[? ->]]; nia. }
  apply integer_intro; [rewrite Z.abs_eq; [exact Haa|nia]|].
  rewrite mul_spec. apply SFmul_int_square; [apply SFint_integer, Ha|exact Haa].
Qed.

Lemma integer_div (n mu : Z) :
  (0 < n < 2 ^ 53)%Z -> (Z.abs (n * mu) < 2 ^ 53)%Z ->
  integer (n * mu) / integer n = integer mu.
Proof.
  intros [Hn Hn'] Hnm.
  assert (Hm : (Z.abs mu < 2 ^ 53)%Z).
  { apply (Z.le_lt_trans _ (Z.abs (n * mu))); [|exact Hnm].
    rewrite Z.abs_mul. destruct (Z.abs_spec n) as [[? ->]|[? ->]]; nia. }
  apply integer_intro; [exact Hm|].
  rewrite div_spec.
  apply (SFdiv_int n mu); try apply SFint_integer; try assumption.
  rewrite Z.abs_eq; lia.
Qed.

Lemma of_count_integer (n : Z) :
  (0 <= n < 2 ^ 53)%Z -> of_count n = integer n.
Proof.
  intros Hn. apply integer_intro; [lia|].
  cbn [of_count binary64]. rewrite of_uint63_spec, Uint63.of_Z_spec.
  rewrite Z.mod_small.
  - apply binary_normalize_int; [lia|lia|]. cbn. lia.
  - split; [lia|]. apply (Z.lt_trans _ (2 ^ 53)); [lia|reflexivity].
Qed.

End IntegerFloats.

(** ** The variance of a sample of integers

    [np.add.reduce] adds a sample of integers exactly, whatever the route
    the pairwise summation takes, and [np.var] of a sample of integers with
    an integer mean is the exact sum of the squared deviations divided by
    the count less [ddof]. *)

Section IntegerSums.
Local Open Scope Z_scope.

Lemma abs_sum_nonneg (ks : list Z) : 0 <= abs_sum ks.
Proof.
  unfold abs_sum, exact_sum.
  induction ks as [|k ks IH]; cbn [map fold_right]; lia.
Qed.

Lemma abs_sum_cons (k : Z) (ks : list Z) :
  abs_sum (k :: ks) = Z.abs k + abs_sum ks.
Proof. reflexivity. Qed.

Lemma exact_sum_cons (k : Z) (ks : list Z) :
  exact_sum (k :: ks) = k + exact_sum ks.
Proof. reflexivity. Qed.

Lemma exact_sum_abs (ks : list Z) : Z.abs (exact_sum ks) <= abs_sum ks.
Proof.
  induction ks as [|k ks IH]; [cbn; lia|].
  rewrite exact_sum_cons, abs_sum_cons. lia.
Qed.

Lemma exact_sum_app (l1 l2 : list Z) :
  exact_sum (l1 ++ l2) = exact_sum l1 + exact_sum l2.
Proof.
  induction l1 as [|k l1 IH]; [reflexivity|].
  cbn [app]. rewrite !exact_sum_cons, IH. lia.
Qed.

Lemma exact_sum_split (n : nat) (ks : list Z) :
  exact_sum ks = exact_sum (firstn n ks) + exact_sum (skipn n ks).
Proof.
  rewrite <- exact_sum_app, firstn_skipn. reflexivity.
Qed.

Lemma abs_sum_split (n : nat) (ks : list Z) :
  abs_sum ks = abs_sum (firstn n ks) + abs_sum (skipn n ks).
Proof.
  unfold abs_sum. rewrite <- firstn_map, <- skipn_map. apply exact_sum_split.
Qed.

Lemma abs_sum_in (k : Z) (ks : list Z) : In k ks -> Z.abs k <= abs_sum ks.
Proof.
  induction ks as [|k' ks IH]; [intros []|].
  rewrite abs_sum_cons. pose proof (abs_sum_nonneg ks).
  intros [->|Hin]; [lia|]. specialize (IH Hin). lia.
Qed.

End IntegerSums.

Section IntegerSummation.
Local Open Scope Z_scope.

Ltac bound_abs :=
  repeat match goal with
         | H : context [Z.abs ?x] |- _ =>
             let A := fresh "A" in
             set (A := Z.abs x) in *;
             assert (- A <= x <= A) by (apply Z.abs_le, Z.le_refl);
             clearbody A
         end.

Lemma sequential_sum_integer (ks : list Z) :
  forall r : Z,
    Z.abs r + abs_sum ks < 2 ^ 53 ->
    sequential_sum (integer r) (map integer ks) = integer (r + exact_sum ks).
Proof.
  unfold sequential_sum.
  induction ks as [|k ks IH]; intros r Hb; cbn [map fold_left].
  - cbn. rewrite Z.add_0_r. reflexivity.
  - rewrite abs_sum_cons in Hb. pose proof (abs_sum_nonneg ks).
    cbn [add binary64]. rewrite integer_add by lia.
    rewrite IH by lia. rewrite exact_sum_cons. f_equal. lia.
Qed.

Lemma unrolled_sum_integer (n : nat) :
  forall (ks : list Z) (r0 r1 r2 r3 r4 r5 r6 r7 : Z),
    (length ks <= n)%nat ->
    Z.abs r0 + Z.abs r1 + Z.abs r2 + Z.abs r3 + Z.abs r4 + Z.abs r5
    + Z.abs r6 + Z.abs r7 + abs_sum ks < 2 ^ 53 ->
    unrolled_sum (integer r0) (integer r1) (integer r2) (integer r3)
                 (integer r4) (integer r5) (integer r6) (integer r7)
                 (map integer ks)
    = integer (r0 + r1 + r2 + r3 + r4 + r5 + r6 + r7 + exact_sum ks).
Proof.
  assert (Hshort : forall (ks : list Z) (r0 r1 r2 r3 r4 r5 r6 r7 : Z),
             Z.abs r0 + Z.abs r1 + Z.abs r2 + Z.abs r3 + Z.abs r4 + Z.abs r5
             + Z.abs r6 + Z.abs r7 + abs_sum ks < 2 ^ 53 ->
             sequential_sum
               (add (add (add (integer r0) (integer r1))
                         (add (integer r2) (integer r3)))
                    (add (add (integer r4) (integer r5))
                         (add (integer r6) (integer r7))))
               (map integer ks)
             = integer (r0 + r1 + r2 + r3 + r4 + r5 + r6 + r7 + exact_sum ks)).
  { intros ks r0 r1 r2 r3 r4 r5 r6 r7 Hb.
    pose proof (abs_sum_nonneg ks). bound_abs.
    cbn [add binary64]. rewrite !integer_add_bounded by lia.
    rewrite sequential_sum_integer by lia. f_equal. lia. }
  induction n as [|n IH]; intros ks r0 r1 r2 r3 r4 r5 r6 r7 Hn Hb.
  - destruct ks; [|simpl in Hn; lia].
    exact (Hshort _ _ _ _ _ _ _ _ _ Hb).
  - destruct ks as [|b0 [|b1 [|b2 [|b3 [|b4 [|b5 [|b6 [|b7 rest]]]]]]]];
      try exact (Hshort _ _ _ _ _ _ _ _ _ Hb).
    cbn [map unrolled_sum]. rewrite !abs_sum_cons in Hb.
    pose proof (abs_sum_nonneg rest).
    assert (Hn' : (length rest <= n)%nat) by (simpl in Hn; lia).
    rewrite !exact_sum_cons.
    replace (r0 + r1 + r2 + r3 + r4 + r5 + r6 + r7
             + (b0 + (b1 + (b2 + (b3 + (b4 + (b5 + (b6 + (b7 + exact_sum rest)))))))))
      with ((r0 + b0) + (r1 + b1) + (r2 + b2) + (r3 + b3) + (r4 + b4)
            + (r5 + b5) + (r6 + b6) + (r7 + b7) + exact_sum rest) by ring.
    rewrite <- (IH rest _ _ _ _ _ _ _ _ Hn').
    + bound_abs. cbn [add binary64].
      rewrite !integer_add_bounded by lia. reflexivity.
    + assert (T : forall a b, Z.abs (a + b) <= Z.abs a + Z.abs b)
        by (intros; apply Z.abs_triangle).
      pose proof (T r0 b0). pose proof (T r1 b1). pose proof (T r2 b2).
      pose proof (T r3 b3). pose proof (T r4 b4). pose proof (T r5 b5).
      pose proof (T r6 b6). pose proof (T r7 b7). clear T.
      repeat match goal with
             | H : context [Z.abs ?x] |- _ =>
                 let A := fresh "A" in
                 set (A := Z.abs x) in *; clearbody A
             end.
      lia.
Qed.

Lemma pairwise_sum_integer (fuel : nat) :
  forall ks : list Z,
    abs_sum ks < 2 ^ 53 ->
    pairwise_sum fuel (map integer ks) = integer (exact_sum ks).
Proof.
  assert (Hseq : forall ks : list Z,
             abs_sum ks < 2 ^ 53 ->
             sequential_sum zero (map integer ks) = integer (exact_sum ks)).
  { intros ks Hb. change zero with (integer 0).
    rewrite sequential_sum_integer by (cbn [Z.abs]; lia). reflexivity. }
  induction fuel as [|fuel IH]; intros ks Hb; cbn [pairwise_sum];
    rewrite length_map;
    destruct (length ks <? 8)%nat; try (apply Hseq; exact Hb);
    destruct (length ks <=? PW_BLOCKSIZE)%nat;
    try (destruct ks as [|b0 [|b1 [|b2 [|b3 [|b4 [|b5 [|b6 [|b7 rest]]]]]]]];
         try (apply Hseq; exact Hb);
         cbn [map]; rewrite !abs_sum_cons in Hb;
         rewrite (unrolled_sum_integer (length rest)) by (exact Hb || lia);
         rewrite !exact_sum_cons; f_equal; lia).
  set (n2 := (length ks / 2 - (length ks / 2) mod 8)%nat).
  rewrite firstn_map, skipn_map.
  pose proof (abs_sum_split n2 ks) as Ha.
  pose proof (abs_sum_nonneg (firstn n2 ks)).
  pose proof (abs_sum_nonneg (skipn n2 ks)).
  pose proof (exact_sum_abs (firstn n2 ks)).
  pose proof (exact_sum_abs (skipn n2 ks)).
  pose proof (exact_sum_split n2 ks) as Hs.
  rewrite !IH by lia. cbn [add binary64].
  rewrite integer_add by lia. f_equal. lia.
Qed.

Lemma add_reduce_integer (ks : list Z) :
  abs_sum ks < 2 ^ 53 ->
  add_reduce (map integer ks) = integer (exact_sum ks).
Proof.
  intros Hb. unfold add_reduce. rewrite pairwise_sum_integer by exact Hb.
  pose proof (exact_sum_abs ks).
  change zero with (integer 0). cbn [add binary64].
  rewrite integer_add by (cbn [Z.abs Z.add]; lia). reflexivity.
Qed.

End IntegerSummation.

Section IntegerVariance.
Local Open Scope Z_scope.

Lemma exact_sum_in_nonneg (f : Z -> Z) (ks : list Z) (k : Z) :
  (forall x, 0 <= f x) -> In k ks -> f k <= exact_sum (map f ks).
Proof.
  intros Hf. induction ks as [|k' ks IH]; [intros []|].
  cbn [map]. rewrite exact_sum_cons.
  assert (0 <= exact_sum (map f ks)).
  { clear IH. induction ks as [|x ks IH]; [cbn; lia|].
    cbn [map]. rewrite exact_sum_cons. specialize (Hf x). lia. }
  intros [->|Hin]; [lia|]. specialize (IH Hin). specialize (Hf k'). lia.
Qed.

Lemma abs_sum_nonneg_eq (f : Z -> Z) (ks : list Z) :
  (forall x, 0 <= f x) -> abs_sum (map f ks) = exact_sum (map f ks).
Proof.
  intros Hf. induction ks as [|k ks IH]; [reflexivity|].
  cbn [map]. rewrite abs_sum_cons, exact_sum_cons, IH.
  rewrite Z.abs_eq by apply Hf. reflexivity.
Qed.

(** On a sample of integers whose mean is an integer, and small enough for
    binary64 to hold every sum, [np.var(., ddof=1)] is the quotient of the
    exact sum of the squared deviations by [n - 1]. *)
Lemma np_var_integer (ks : list Z) (mu : Z) :
  1 <= Z.of_nat (length ks) < 2 ^ 53 ->
  exact_sum ks = Z.of_nat (length ks) * mu ->
  2 * abs_sum ks < 2 ^ 53 ->
  squared_deviations mu ks < 2 ^ 53 ->
  np_var (map integer ks) 1
  = (integer (squared_deviations mu ks)
     / integer (Z.of_nat (length ks) - 1))%float.
Proof.
  intros Hn Hsum Hb Hsq. unfold np_var. rewrite length_map.
  set (n := Z.of_nat (length ks)) in *.
  pose proof (abs_sum_nonneg ks) as H0.
  pose proof (exact_sum_abs ks) as Hs.
  assert (Hmu : Z.abs mu <= abs_sum ks).
  { rewrite Hsum, Z.abs_mul, (Z.abs_eq n) in Hs by lia. nia. }
  rewrite add_reduce_integer by lia.
  rewrite Hsum, (of_count_integer n) by lia.
  cbn [div binary64]. rewrite integer_div; [|lia|rewrite <- Hsum; lia].
  assert (E1 : map (fun v => sub v (integer mu)) (map integer ks)
               = map integer (map (fun k => k - mu) ks)).
  { rewrite !map_map. apply map_ext_in. intros k Hin.
    pose proof (abs_sum_in k ks Hin). cbn [sub binary64].
    apply integer_sub; lia. }
  rewrite E1.
  assert (E2 : map (fun v => mul v v) (map integer (map (fun k => k - mu) ks))
               = map integer (map (fun k => (k - mu) * (k - mu)) ks)).
  { rewrite !map_map. apply map_ext_in. intros k Hin. cbn [mul binary64].
    apply integer_square.
    apply (Z.le_lt_trans _ (squared_deviations mu ks)); [|exact Hsq].
    apply (exact_sum_in_nonneg (fun k => (k - mu) * (k - mu))); [|exact Hin].
    intros x. apply Z.square_nonneg. }
  rewrite E2.
  assert (Hnn : forall x, 0 <= (x - mu) * (x - mu))
    by (intros x; apply Z.square_nonneg).
  rewrite add_reduce_integer
    by (rewrite (abs_sum_nonneg_eq _ ks Hnn); exact Hsq).
  rewrite Z.max_l by lia. rewrite of_count_integer by lia.
  reflexivity.
Qed.

End IntegerVariance.

(** ** The formula of the variance-ratio F-test *)

Lemma integer_sample_inv (ks : list Z) (mu : Z) :
  integer_sample ks mu = true ->
  (exact_sum ks = Z.of_nat (length ks) * mu
   /\ Z.of_nat (length ks) < 2 ^ 53
   /\ 2 * abs_sum ks < 2 ^ 53
   /\ squared_deviations mu ks < 2 ^ 53)%Z.
Proof.
  unfold integer_sample. intros H.
  apply andb_prop in H. destruct H as [H H4].
  apply andb_prop in H. destruct H as [H H3].
  apply andb_prop in H. destruct H as [H1 H2].
  apply Z.eqb_eq in H1. apply Z.ltb_lt in H2, H3, H4.
  repeat split; assumption.
Qed.

(** The variance of an integer sample of at least one observation. *)
Lemma np_var_integer_sample (ks : list Z) (mu : Z) :
  (1 <= length ks)%nat -> integer_sample ks mu = true ->
  np_var (map integer ks) 1
  = (integer (squared_deviations mu ks)
     / integer (Z.of_nat (length ks) - 1))%float.
Proof.
  intros Hn Hs. apply integer_sample_inv in Hs.
  destruct Hs as (H1 & H2 & H3 & H4).
  apply np_var_integer; try assumption. lia.
Qed.

(** C2.  For samples of at least two observations each, the second with a
    nonzero variance, [two_sample_variance_f_test] returns the pair
    [(F, p)] with [F = var(sample1, ddof=1) / var(sample2, ddof=1)] and
    [p = 1 - CDF_F(F, n1 - 1, n2 - 1)].  Here [var(., ddof=1)] is what
    [np.var] computes in binary64; on an integer sample, where binary64
    computes every sum exactly, it is the sum of the squared deviations
    from the mean divided by [n - 1], the unbiased sample variance. *)
Theorem two_sample_variance_f_test_formula
    (stats : scipy_stats float) (sample1 sample2 : list float) :
  (2 <= length sample1)%nat ->
  (2 <= length sample2)%nat ->
  (np_var sample2 1 =? 0)%float = false ->
  let n1 := Z.of_nat (length sample1) in
  let n2 := Z.of_nat (length sample2) in
  exists F p : float,
    two_sample_variance_f_test stats sample1 sample2 = Returns (F, p)
    /\ F = (np_var sample1 1 / np_var sample2 1)%float
    /\ p = (1 - f_cdf stats F (n1 - 1) (n2 - 1))%float
    /\ (forall (ks : list Z) (mu : Z),
          sample1 = map integer ks -> integer_sample ks mu = true ->
          np_var sample1 1
          = (integer (squared_deviations mu ks) / integer (n1 - 1))%float)
    /\ (forall (ks : list Z) (mu : Z),
          sample2 = map integer ks -> integer_sample ks mu = true ->
          np_var sample2 1
          = (integer (squared_deviations mu ks) / integer (n2 - 1))%float).
Proof.
  intros Hn1 Hn2 _ n1 n2. eexists; eexists.
  split; [reflexivity|]. split; [reflexivity|]. split; [reflexivity|].
  split; intros ks mu -> Hs; unfold n1, n2; rewrite length_map in *;
    apply np_var_integer_sample; (assumption || lia).
Qed.

Lemma two_sample_variance_f_test_formula_witness :
  (np_var [1; 2; 3; 4; 5; 6; 7; 8; 9]%float 1 = 7.5%float
   /\ np_var [2; 4; 6; 8; 10; 12; 14; 16; 18]%float 1 = 30%float
   /\ [1; 2; 3; 4; 5; 6; 7; 8; 9]%float
      = map integer [1; 2; 3; 4; 5; 6; 7; 8; 9]%Z
   /\ integer_sample [1; 2; 3; 4; 5; 6; 7; 8; 9]%Z 5 = true
   /\ (integer (squared_deviations 5 [1; 2; 3; 4; 5; 6; 7; 8; 9]%Z)
       / integer (9 - 1) = 7.5)%float)
  /\ exists F p : float,
       two_sample_variance_f_test (stand_in uniform_cdf)
         [1; 2; 3; 4; 5; 6; 7; 8; 9]%float
         [2; 4; 6; 8; 10; 12; 14; 16; 18]%float
       = Returns (F, p)
       /\ F = (np_var [1; 2; 3; 4; 5; 6; 7; 8; 9] 1
               / np_var [2; 4; 6; 8; 10; 12; 14; 16; 18] 1)%float
       /\ p = (1 - uniform_cdf F (9 - 1) (9 - 1))%float
       /\ (forall (ks : list Z) (mu : Z),
             [1; 2; 3; 4; 5; 6; 7; 8; 9]%float = map integer ks ->
             integer_sample ks mu = true ->
             np_var [1; 2; 3; 4; 5; 6; 7; 8; 9]%float 1
             = (integer (squared_deviations mu ks) / integer (9 - 1))%float)
       /\ (forall (ks : list Z) (mu : Z),
             [2; 4; 6; 8; 10; 12; 14; 16; 18]%float = map integer ks ->
             integer_sample ks mu = true ->
             np_var [2; 4; 6; 8; 10; 12; 14; 16; 18]%float 1
             = (integer (squared_deviations mu ks) / integer (9 - 1))%float).
Proof.
  split; [repeat split; vm_compute; reflexivity|].
  apply (two_sample_variance_f_test_formula
           (stand_in uniform_cdf)
           [1; 2; 3; 4; 5; 6; 7; 8; 9]%float
           [2; 4; 6; 8; 10; 12; 14; 16; 18]%float).
  - simpl. lia.
  - simpl. lia.
  - vm_compute. reflexivity.
Defined.

(** On two integer samples the F statistic is the binary64 quotient of the
    two unbiased sample variances, each the exact sum of the squared
    deviations divided by [n - 1]. *)
Theorem two_sample_variance_f_test_integer_samples
    (stats : scipy_stats float) (ks1 ks2 : list Z) (mu1 mu2 : Z) :
  (1 <= length ks1)%nat ->
  (1 <= length ks2)%nat ->
  integer_sample ks1 mu1 = true ->
  integer_sample ks2 mu2 = true ->
  let n1 := Z.of_nat (length ks1) in
  let n2 := Z.of_nat (length ks2) in
  let F := (integer (squared_deviations mu1 ks1) / integer (n1 - 1)
            / (integer (squared_deviations mu2 ks2) / integer (n2 - 1)))%float in
  two_sample_variance_f_test stats (map integer ks1) (map integer ks2)
  = Returns (F, (1 - f_cdf stats F (n1 - 1) (n2 - 1))%float).
Proof.
  intros Hn1 Hn2 H1 H2 n1 n2 F.
  unfold two_sample_variance_f_test, len. rewrite !length_map.
  rewrite (np_var_integer_sample ks1 mu1 Hn1 H1).
  rewrite (np_var_integer_sample ks2 mu2 Hn2 H2).
  reflexivity.
Qed.

Lemma two_sample_variance_f_test_integer_samples_witness :
  (map integer [1; 2; 3; 4; 5; 6; 7; 8; 9]%Z
   = [1; 2; 3; 4; 5; 6; 7; 8; 9]%float
   /\ map integer [2; 4; 6; 8; 10; 12; 14; 16; 18]%Z
      = [2; 4; 6; 8; 10; 12; 14; 16; 18]%float
   /\ (integer 60 / integer 8 / (integer 240 / integer 8) = 0.25)%float)
  /\ two_sample_variance_f_test (stand_in uniform_cdf)
       (map integer [1; 2; 3; 4; 5; 6; 7; 8; 9]%Z)
       (map integer [2; 4; 6; 8; 10; 12; 14; 16; 18]%Z)
     = Returns ((integer 60 / integer 8 / (integer 240 / integer 8))%float,
                (1 - uniform_cdf
                       (integer 60 / integer 8 / (integer 240 / integer 8))
                       8 8)%float).
Proof.
  split; [repeat split; vm_compute; reflexivity|].
  apply (two_sample_variance_f_test_integer_samples
           (stand_in uniform_cdf)
           [1; 2; 3; 4; 5; 6; 7; 8; 9]%Z [2; 4; 6; 8; 10; 12; 14; 16; 18]%Z
           5 10);
    try (simpl; lia); reflexivity.
Defined.

(** ** Permuted samples *)

Section Permuted.
Local Open Scope Z_scope.

Lemma exact_sum_perm (l l' : list Z) :
  Permutation l l' -> exact_sum l = exact_sum l'.
Proof.
  induction 1 as [|x l l' HP IH|x y l|l l' l'' HP1 IH1 HP2 IH2].
  - reflexivity.
  - rewrite !exact_sum_cons, IH. reflexivity.
  - rewrite !exact_sum_cons. lia.
  - rewrite IH1. exact IH2.
Qed.

Lemma integer_sample_perm (ks ks' : list Z) (mu : Z) :
  Permutation ks ks' -> integer_sample ks' mu = integer_sample ks mu.
Proof.
  intros HP. unfold integer_sample, abs_sum, squared_deviations.
  rewrite <- (Permutation_length HP), <- (exact_sum_perm _ _ HP).
  rewrite <- (exact_sum_perm _ _ (Permutation_map Z.abs HP)).
  rewrite <- (exact_sum_perm _ _ (Permutation_map _ HP)).
  reflexivity.
Qed.

(** The variance of a sample of integers does not depend on the order of
    the observations. *)
Lemma np_var_perm_integers (a a' : list float) :
  Permutation a a' -> sample_of_integers a -> np_var a' 1 = np_var a 1.
Proof.
  intros HP (ks & mu & -> & Hs).
  apply Permutation_sym, Permutation_map_inv in HP.
  destruct HP as (ks' & -> & HP).
  destruct ks as [|k ks].
  - apply Permutation_nil in HP. subst ks'. reflexivity.
  - assert (Hs' : integer_sample ks' mu = true)
      by (rewrite (integer_sample_perm _ _ mu HP); exact Hs).
    assert (Hn : (1 <= length (k :: ks))%nat) by (simpl; lia).
    assert (Hn' : (1 <= length ks')%nat)
      by (rewrite <- (Permutation_length HP); exact Hn).
    rewrite (np_var_integer_sample _ mu Hn Hs).
    rewrite (np_var_integer_sample _ mu Hn' Hs').
    unfold squared_deviations.
    rewrite <- (Permutation_length HP).
    rewrite <- (exact_sum_perm _ _ (Permutation_map _ HP)).
    reflexivity.
Qed.

End Permuted.

(** C10, as the program has it.  Permuting the observations of either
    sample leaves the returned pair unchanged when each sample has at most
    two observations, or is a sample of integers that binary64 adds
    exactly, or keeps the variance [np.var] computes for it: the degrees
    of freedom do not change, and the order of a sample enters the result
    through its computed variance only. *)
Theorem two_sample_variance_f_test_perm
    (stats : scipy_stats float)
    (sample1 sample2 permuted1 permuted2 : list float) :
  Permutation sample1 permuted1 ->
  Permutation sample2 permuted2 ->
  (length sample1 <= 2)%nat \/ sample_of_integers sample1
  \/ np_var permuted1 1 = np_var sample1 1 ->
  (length sample2 <= 2)%nat \/ sample_of_integers sample2
  \/ np_var permuted2 1 = np_var sample2 1 ->
  two_sample_variance_f_test stats permuted1 permuted2
  = two_sample_variance_f_test stats sample1 sample2.
Proof.
  intros H1 H2 V1 V2.
  assert (E1 : np_var permuted1 1 = np_var sample1 1).
  { destruct V1 as [Hn|[Hi|E]];
      [apply np_var_perm_short|apply np_var_perm_integers|exact E];
      assumption. }
  assert (E2 : np_var permuted2 1 = np_var sample2 1).
  { destruct V2 as [Hn|[Hi|E]];
      [apply np_var_perm_short|apply np_var_perm_integers|exact E];
      assumption. }
  unfold two_sample_variance_f_test, len.
  rewrite E1, E2, <- (Permutation_length H1), <- (Permutation_length H2).
  reflexivity.
Qed.

Lemma two_sample_variance_f_test_perm_witness :
  (np_var [1; 2; 3]%float 1 = 1%float
   /\ np_var [3; 1; 2]%float 1 = 1%float
   /\ np_var [1; 0; 3]%float 1 = np_var [0; 1; 3]%float 1)
  /\ two_sample_variance_f_test (stand_in uniform_cdf)
       [3; 1; 2]%float [1; 0; 3]%float
     = two_sample_variance_f_test (stand_in uniform_cdf)
         [1; 2; 3]%float [0; 1; 3]%float.
Proof.
  split; [repeat split; vm_compute; reflexivity|].
  apply (two_sample_variance_f_test_perm
           (stand_in uniform_cdf) [1; 2; 3]%float [0; 1; 3]%float).
  - apply Permutation_sym.
    apply (perm_trans (l' := [1; 3; 2]%float)).
    + apply perm_swap.
    + apply perm_skip, perm_swap.
  - apply perm_swap.
  - right. left. exists [1; 2; 3]%Z, 2%Z. split; reflexivity.
  - right. right. vm_compute. reflexivity.
Defined.

(** The order can matter by more than the last place: the four
    observations [2 ^ 53 + 2] (three times) and [2 ^ 53] have the computed
    variance 4 / 3 in one order and 4 in another. *)
Lemma np_var_order_matters_much :
  let big := 0x1p53%float in
  Permutation [big + 2; big + 2; big; big + 2]%float
              [big; big + 2; big + 2; big + 2]%float
  /\ np_var [big + 2; big + 2; big; big + 2]%float 1
     = 0x1.5555555555555p+0%float
  /\ np_var [big; big + 2; big + 2; big + 2]%float 1 = 4%float.
Proof.
  cbv zeta. split; [|split; vm_compute; reflexivity].
  apply (perm_trans (l' := [0x1p53 + 2; 0x1p53; 0x1p53 + 2; 0x1p53 + 2]%float)).
  - apply perm_skip, perm_swap.
  - apply perm_swap.
Qed.

(** ** Constant samples of integers

    A sample that repeats one integer has the computed variance 0, exactly:
    the mean is the integer itself and every deviation is 0.  (A constant
    sample of a number that is not an integer need not have the variance
    0, see [constant_sample_positive_variance].) *)

Section ConstantSamples.
Local Open Scope Z_scope.

Lemma exact_sum_repeat (c : Z) (n : nat) :
  exact_sum (repeat c n) = Z.of_nat n * c.
Proof.
  induction n as [|n IH]; [reflexivity|].
  cbn [repeat]. rewrite exact_sum_cons, IH. lia.
Qed.

Lemma np_var_constant_integers (c : Z) (n : nat) :
  (2 <= n)%nat -> Z.of_nat n < 2 ^ 52 -> Z.of_nat n * Z.abs c < 2 ^ 52 ->
  np_var (repeat (integer c) n) 1 = 0%float.
Proof.
  intros Hn Hlen Hsum.
  assert (Hs : squared_deviations c (repeat c n) = 0).
  { unfold squared_deviations. rewrite map_repeat, Z.sub_diag, Z.mul_0_l.
    rewrite exact_sum_repeat. lia. }
  assert (Ha : abs_sum (repeat c n) = Z.of_nat n * Z.abs c).
  { unfold abs_sum. rewrite map_repeat. apply exact_sum_repeat. }
  change (2 ^ 52) with 4503599627370496 in *.
  rewrite <- map_repeat, (np_var_integer (repeat c n) c);
    rewrite ?repeat_length, ?Hs, ?Ha, ?exact_sum_repeat;
    try reflexivity; try (change (2 ^ 53) with 9007199254740992; lia).
  replace 0 with ((Z.of_nat n - 1) * 0) at 1 by lia.
  rewrite integer_div; [reflexivity| |rewrite Z.mul_0_r; reflexivity].
  change (2 ^ 53) with 9007199254740992. lia.
Qed.

End ConstantSamples.

(** Against a constant sample of integers the F statistic is an infinity,
    or NaN when the first sample has the variance zero or NaN. *)
Theorem two_sample_variance_f_test_constant_integers
    (stats : scipy_stats float) (sample1 : list float) (c : Z) (n : nat) :
  (2 <= n)%nat ->
  (Z.of_nat n < 2 ^ 52)%Z ->
  (Z.of_nat n * Z.abs c < 2 ^ 52)%Z ->
  exists p : float,
    two_sample_variance_f_test stats sample1 (repeat (integer c) n)
    = Returns (if is_nan (np_var sample1 1) || (np_var sample1 1 =? 0)%float
               then nan else infinity, p).
Proof.
  intros Hn Hlen Hsum. eexists. unfold two_sample_variance_f_test.
  cbn [div binary64].
  rewrite (div_by_zero_value _ _ (np_var_sign_clear sample1 1)
             (np_var_sign_clear (repeat (integer c) n) 1)).
  - reflexivity.
  - rewrite (np_var_constant_integers c n Hn Hlen Hsum). reflexivity.
Qed.

Lemma two_sample_variance_f_test_constant_integers_witness :
  repeat (integer 3) 4 = [3; 3; 3; 3]%float
  /\ exists p : float,
       two_sample_variance_f_test (stand_in uniform_cdf)
         [1; 2]%float (repeat (integer 3) 4)
       = Returns (if is_nan (np_var [1; 2]%float 1)
                     || (np_var [1; 2]%float 1 =? 0)%float
                  then nan else infinity, p).
Proof.
  split; [reflexivity|].
  apply (two_sample_variance_f_test_constant_integers
           (stand_in uniform_cdf) [1; 2]%float 3 4).
  - lia.
  - reflexivity.
  - reflexivity.
Defined.
